(** * Scanners for Java archives and source trees

    A shallow embedding of the scripts [jar_package_scanner.py],
    [jar_text_scanner.py] and [java_text_searcher.py], and the properties of
    their scan, merge and report stages.

    Conventions of the embedding.
    - A Python [str] is the list of its code points ([N]); a [bytes] object
      is a list of [Byte.byte].
    - The file system and the archives on it are an explicit [World]: what
      [os.walk], [os.path.exists], [zipfile.ZipFile] and [open] answer.
    - [print] appends a structured line to the output; a function that
      prints returns its value together with the lines it printed.
    - A Python [dict] is an association list in insertion order with unique
      keys.
    - [asyncio.gather] over coroutines that never await runs them one after
      the other in the order given, so it is [map]. *)

From Stdlib.Strings Require Import Ascii String Byte.
From Stdlib Require Import List NArith ZArith Bool Lia.
Import ListNotations.
Local Open Scope list_scope.

(** ** Python primitives used by the scripts *)

Module Py.

Definition str := list N.
Definition bytes := list byte.

(** String and bytes literals of the source. *)
Definition lit (s : string) : str := map N_of_ascii (list_ascii_of_string s).
Definition blit (s : string) : bytes := list_byte_of_string s.

Definition byte_of_N (n : N) : byte :=
  match Byte.of_N n with Some b => b | None => x00 end.

Section Sequences.
Context {A : Type} (eqb : A -> A -> bool).

Fixpoint seq_eqb (s t : list A) : bool :=
  match s, t with
  | [], [] => true
  | a :: s', b :: t' => eqb a b && seq_eqb s' t'
  | _, _ => false
  end.

(** [s.startswith(p)] *)
Fixpoint startswith (s p : list A) {struct p} : bool :=
  match p, s with
  | [], _ => true
  | _ :: _, [] => false
  | b :: p', a :: s' => eqb a b && startswith s' p'
  end.

(** [s.endswith(suf)] *)
Definition endswith (s suf : list A) : bool :=
  (length suf <=? length s)%nat
  && seq_eqb (skipn (length s - length suf) s) suf.

(** [s.find(needle)]: the lowest index where [needle] starts, or -1. *)
Fixpoint find_from (i : Z) (s needle : list A) : Z :=
  if startswith s needle then i
  else match s with
       | [] => (-1)%Z
       | _ :: s' => find_from (i + 1)%Z s' needle
       end.

Definition find (s needle : list A) : Z := find_from 0%Z s needle.

(** [needle in s] on [str] and [bytes]. *)
Fixpoint contains (needle s : list A) : bool :=
  startswith s needle
  || match s with
     | [] => false
     | _ :: s' => contains needle s'
     end.

(** [x in l] on a list, by [==] on the elements. *)
Definition list_in (x : A) (l : list A) : bool := existsb (eqb x) l.

(** [l.index(x)]; [None] stands for the [ValueError]. *)
Fixpoint index (x : A) (l : list A) : option Z :=
  match l with
  | [] => None
  | a :: l' => if eqb a x then Some 0%Z
               else option_map Z.succ (index x l')
  end.
End Sequences.

(** Slices [s[lo:hi]] and [s[:hi]] with Python's treatment of negative and
    out-of-range bounds. *)
Definition clamp_index (len i : Z) : Z :=
  if (i <? 0)%Z then Z.max 0 (len + i) else Z.min i len.

Definition slice {A} (s : list A) (lo hi : Z) : list A :=
  let n := Z.of_nat (length s) in
  let a := clamp_index n lo in
  let b := clamp_index n hi in
  firstn (Z.to_nat (b - a)) (skipn (Z.to_nat a) s).

Definition slice_to {A} (s : list A) (hi : Z) : list A := slice s 0%Z hi.

Definition len {A} (s : list A) : Z := Z.of_nat (length s).

(** [enumerate(l, start)] *)
Fixpoint enumerate {A} (start : Z) (l : list A) : list (Z * A) :=
  match l with
  | [] => []
  | a :: l' => (start, a) :: enumerate (start + 1)%Z l'
  end.

Definition str_eqb : str -> str -> bool := seq_eqb N.eqb.
Definition bytes_eqb : bytes -> bytes -> bool := seq_eqb Byte.eqb.

(** [str.lower()].  Only the ASCII letters are mapped; the case mappings of
    the other code points are left out of the model. *)
Definition lower_char (c : N) : N :=
  if (65 <=? c)%N && (c <=? 90)%N then (c + 32)%N else c.
Definition lower (s : str) : str := map lower_char s.

(** [str.isspace] on one code point, which is also the regular expression
    class [\s] on [str] patterns. *)
Definition isspace (c : N) : bool :=
  ((9 <=? c) && (c <=? 13) || (28 <=? c) && (c <=? 32)
   || (c =? 133) || (c =? 160) || (c =? 5760)
   || (8192 <=? c) && (c <=? 8202) || (c =? 8232) || (c =? 8233)
   || (c =? 8239) || (c =? 8287) || (c =? 12288))%N.

Fixpoint dropwhile {A} (p : A -> bool) (s : list A) : list A :=
  match s with
  | [] => []
  | a :: s' => if p a then dropwhile p s' else s
  end.

Definition rstrip_by {A} (p : A -> bool) (s : list A) : list A :=
  rev (dropwhile p (rev s)).

(** [str.strip()] *)
Definition strip (s : str) : str := rstrip_by isspace (dropwhile isspace s).

(** [str.splitlines()]: the line boundaries are \n, \r, \r\n, \v, \f,
    \x1c, \x1d, \x1e, \x85, U+2028 and U+2029; a last line without a
    boundary is kept when it is not empty. *)
Definition is_linebreak (c : N) : bool :=
  ((10 <=? c) && (c <=? 13) || (28 <=? c) && (c <=? 30)
   || (c =? 133) || (c =? 8232) || (c =? 8233))%N.

Fixpoint splitlines_aux (cur : str) (s : str) : list str :=
  match s with
  | [] => match cur with [] => [] | _ => [rev cur] end
  | c :: rest =>
      if (c =? 13)%N then
        match rest with
        | c' :: rest' =>
            if (c' =? 10)%N then rev cur :: splitlines_aux [] rest'
            else rev cur :: splitlines_aux [] rest
        | [] => rev cur :: splitlines_aux [] rest
        end
      else if is_linebreak c then rev cur :: splitlines_aux [] rest
      else splitlines_aux (c :: cur) rest
  end.

Definition splitlines (s : str) : list str := splitlines_aux [] s.

(** [s.replace(old, new)] for one-character [old] and [new]. *)
Definition replace_char (old new : N) (s : str) : str :=
  map (fun c => if (c =? old)%N then new else c) s.

(** [str(n)] for an [int]. *)
Fixpoint digits (d : Decimal.uint) : str :=
  match d with
  | Decimal.Nil => []
  | Decimal.D0 d => 48%N :: digits d
  | Decimal.D1 d => 49%N :: digits d
  | Decimal.D2 d => 50%N :: digits d
  | Decimal.D3 d => 51%N :: digits d
  | Decimal.D4 d => 52%N :: digits d
  | Decimal.D5 d => 53%N :: digits d
  | Decimal.D6 d => 54%N :: digits d
  | Decimal.D7 d => 55%N :: digits d
  | Decimal.D8 d => 56%N :: digits d
  | Decimal.D9 d => 57%N :: digits d
  end.

Definition str_of_int (z : Z) : str :=
  match z with
  | Zneg p => 45%N :: digits (N.to_uint (Npos p))
  | _ => digits (N.to_uint (Z.to_N z))
  end.

(** [str(b)] for a [bytes] object, that is its [repr]: [b'...'], with the
    double quote as delimiter when the value holds a single quote and no
    double quote. *)
Definition hex_digit (n : N) : N :=
  if (n <? 10)%N then (48 + n)%N else (87 + n)%N.

Definition repr_byte (quote : N) (b : byte) : str :=
  let c := Byte.to_N b in
  if (c =? quote)%N || (c =? 92)%N then [92%N; c]
  else if (c =? 9)%N then lit "\t"
  else if (c =? 10)%N then lit "\n"
  else if (c =? 13)%N then lit "\r"
  else if (c <? 32)%N || (127 <=? c)%N
       then [92%N; 120%N; hex_digit (c / 16); hex_digit (c mod 16)]
  else [c].

Definition bytes_repr (bs : bytes) : str :=
  let has q := existsb (fun b => (Byte.to_N b =? q)%N) bs in
  let quote := if has 39%N && negb (has 34%N) then 34%N else 39%N in
  98%N :: quote :: flat_map (repr_byte quote) bs ++ [quote].

(** [sep.join(parts)] *)
Fixpoint join (sep : str) (parts : list str) : str :=
  match parts with
  | [] => []
  | [p] => p
  | p :: ps => p ++ sep ++ join sep ps
  end.

(** [s.encode('utf-8')]; [None] stands for the [UnicodeEncodeError] that a
    surrogate raises. *)
Definition encode_utf8_char (c : N) : option bytes :=
  (if c <? 128 then Some [byte_of_N c]
   else if c <? 2048 then
     Some [byte_of_N (192 + c / 64); byte_of_N (128 + c mod 64)]
   else if (55296 <=? c) && (c <=? 57343) then None
   else if c <? 65536 then
     Some [byte_of_N (224 + c / 4096); byte_of_N (128 + (c / 64) mod 64);
           byte_of_N (128 + c mod 64)]
   else if c <? 1114112 then
     Some [byte_of_N (240 + c / 262144); byte_of_N (128 + (c / 4096) mod 64);
           byte_of_N (128 + (c / 64) mod 64); byte_of_N (128 + c mod 64)]
   else None)%N.

Fixpoint encode_utf8 (s : str) : option bytes :=
  match s with
  | [] => Some []
  | c :: s' =>
      match encode_utf8_char c, encode_utf8 s' with
      | Some bs, Some rest => Some (bs ++ rest)
      | _, _ => None
      end
  end.

(** [b.decode('utf-8', errors='ignore')].  An invalid start byte is
    dropped; after an invalid continuation byte the bytes read so far are
    dropped and decoding resumes at the offending byte; a sequence cut off
    by the end of the data is dropped. *)
Definition is_cont (c : N) : bool := ((128 <=? c) && (c <=? 191))%N.

Fixpoint decode_utf8_ignore (bs : bytes) : str :=
  match bs with
  | [] => []
  | b1 :: r1 =>
    let c1 := Byte.to_N b1 in
    if (c1 <? 128)%N then c1 :: decode_utf8_ignore r1
    else if (c1 <? 194)%N then decode_utf8_ignore r1
    else if (c1 <? 224)%N then
      match r1 with
      | [] => []
      | b2 :: r2 =>
        let c2 := Byte.to_N b2 in
        if is_cont c2
        then ((c1 - 192) * 64 + (c2 - 128))%N :: decode_utf8_ignore r2
        else decode_utf8_ignore r1
      end
    else if (c1 <? 240)%N then
      match r1 with
      | [] => []
      | b2 :: r2 =>
        let c2 := Byte.to_N b2 in
        if is_cont c2 && negb ((c1 =? 224) && (c2 <? 160))%N
           && negb ((c1 =? 237) && (160 <=? c2))%N
        then match r2 with
             | [] => []
             | b3 :: r3 =>
               let c3 := Byte.to_N b3 in
               if is_cont c3
               then ((c1 - 224) * 4096 + (c2 - 128) * 64 + (c3 - 128))%N
                    :: decode_utf8_ignore r3
               else decode_utf8_ignore r2
             end
        else decode_utf8_ignore r1
      end
    else if (c1 <? 245)%N then
      match r1 with
      | [] => []
      | b2 :: r2 =>
        let c2 := Byte.to_N b2 in
        if is_cont c2 && negb ((c1 =? 240) && (c2 <? 144))%N
           && negb ((c1 =? 244) && (144 <=? c2))%N
        then match r2 with
             | [] => []
             | b3 :: r3 =>
               let c3 := Byte.to_N b3 in
               if is_cont c3
               then match r3 with
                    | [] => []
                    | b4 :: r4 =>
                      let c4 := Byte.to_N b4 in
                      if is_cont c4
                      then ((c1 - 240) * 262144 + (c2 - 128) * 4096
                            + (c3 - 128) * 64 + (c4 - 128))%N
                           :: decode_utf8_ignore r4
                      else decode_utf8_ignore r3
                    end
               else decode_utf8_ignore r2
             end
        else decode_utf8_ignore r1
      end
    else decode_utf8_ignore r1
  end.

(** [os.path] on POSIX. *)
Definition slash : N := 47%N.
Definition is_slash (c : N) : bool := (c =? slash)%N.

Definition isabs (p : str) : bool := startswith N.eqb p [slash].

Definition path_join (a b : str) : str :=
  if isabs b then b
  else match a with
       | [] => b
       | _ => if endswith N.eqb a [slash] then a ++ b
              else a ++ slash :: b
       end.

Definition dirname (p : str) : str :=
  let head := rstrip_by (fun c => negb (is_slash c)) p in
  match head with
  | [] => head
  | _ => if forallb is_slash head then head else rstrip_by is_slash head
  end.

(** Order of [str] values, as [sorted] uses it. *)
Fixpoint str_leb (s t : str) : bool :=
  match s, t with
  | [], _ => true
  | _ :: _, [] => false
  | a :: s', b :: t' => (a <? b)%N || (a =? b)%N && str_leb s' t'
  end.

Fixpoint insert_sorted (x : str) (l : list str) : list str :=
  match l with
  | [] => [x]
  | y :: l' => if str_leb x y then x :: l else y :: insert_sorted x l'
  end.

(** [sorted(l)] for a list of [str]. *)
Definition sorted (l : list str) : list str :=
  fold_right insert_sorted [] l.

(** A [dict] with [str] keys. *)
Section Dict.
Context {V : Type}.

Definition dict := list (str * V).

(** [d.get(k)], and [d[k]] when the key is there. *)
Fixpoint get (d : dict) (k : str) : option V :=
  match d with
  | [] => None
  | (k', v) :: d' => if str_eqb k' k then Some v else get d' k
  end.

(** [d[k] = v] *)
Fixpoint set (d : dict) (k : str) (v : V) : dict :=
  match d with
  | [] => [(k, v)]
  | (k', v') :: d' =>
      if str_eqb k' k then (k', v) :: d' else (k', v') :: set d' k v
  end.

(** [list(d.keys())] *)
Definition keys (d : dict) : list str := map fst d.
End Dict.
Arguments dict : clear implicits.

End Py.

(** ** Python values, for comparisons between objects of different types *)

Module PyVal.
Import Py.

(** The two kinds of object the package scanner compares: a [str] and a
    two-element [tuple]. *)
Inductive pyval :=
| PyStr (s : str)
| PyTuple2 (a b : pyval).

(** [x == y]: objects of different types are never equal. *)
Fixpoint py_eqb (x y : pyval) : bool :=
  match x, y with
  | PyStr s, PyStr t => str_eqb s t
  | PyTuple2 a b, PyTuple2 c d => py_eqb a c && py_eqb b d
  | _, _ => false
  end.

End PyVal.

(** ** The world the scripts run in *)

Module Os.
Import Py.

Inductive exn :=
| BadZipFile
| FileNotFoundError
| PermissionError
| UnicodeEncodeError
| KeyError
| ValueError.

(** An archive opened by [zipfile.ZipFile(path, 'r')]: [namelist()], and
    [open(name).read()], where [None] stands for any exception raised while
    opening or reading the member. *)
Record ZipFile := {
  namelist : list str;
  read : str -> option bytes
}.

Inductive zip_open :=
| ZipRaises (e : exn)
| ZipOpened (jar : ZipFile).

(** A directory as [os.walk] sees it: the names of its entries that are not
    directories, and its subdirectories.  A subdirectory that [os.walk] does
    not descend into (a symbolic link, an unreadable directory) is one
    without entries. *)
#[warnings="-register-all"]
Inductive tree :=
| Node (files : list str) (dirs : list (str * tree)).

Inductive encoding := Utf8 | Latin1.

(** How the iteration over the lines of a text file ends. *)
Inductive read_end := Eof | UnicodeDecodeError | OtherError.

Record World := {
  (** the directory at a path, [None] when [os.walk] yields nothing there *)
  tree_at : str -> option tree;
  (** [os.path.exists] *)
  path_exists : str -> bool;
  (** [zipfile.ZipFile(path, 'r')] *)
  zip_at : str -> zip_open;
  (** [open(path, 'r', encoding=...)] and the iteration over its lines: the
      lines read before the end of the file or before an exception *)
  lines_at : str -> encoding -> list str * read_end
}.

(** [os.walk(top)], top-down: the triple of a directory, then the walks of
    its subdirectories in order. *)
Fixpoint walk (top : str) (t : tree) : list (str * list str * list str) :=
  match t with
  | Node files dirs =>
      (top, map fst dirs, files)
      :: flat_map (fun d => walk (path_join top (fst d)) (snd d)) dirs
  end.

Definition os_walk (w : World) (top : str) : list (str * list str * list str) :=
  match tree_at w top with
  | Some t => walk top t
  | None => []
  end.

(** How the interpreter ends, and the exit status of the process. *)
Inductive completion :=
| Returned
| Raised (e : exn).

Definition exit_status (c : completion) : Z :=
  match c with
  | Returned => 0%Z
  | Raised _ => 1%Z
  end.

End Os.

(** ** jar_package_scanner.py *)

Module JarPackageScanner.
Import Py PyVal Os.

Inductive line :=
| ErrorProcessing (jar_path : str) (e : exn)
| FoundJarFiles (n : Z).

(** A result of the scan: the tuple [(package_name, jar_path)]. *)
Definition PackageRecord := (str * str)%type.

Definition as_pyval (r : PackageRecord) : pyval :=
  PyTuple2 (PyStr (fst r)) (PyStr (snd r)).

(** [name in results], for a [str] and the list of tuples. *)
Definition in_results (name : str) (results : list PackageRecord) : bool :=
  list_in py_eqb (PyStr name) (map as_pyval results).

(** [re.findall(r'package\s+([a-zA-Z0-9_.]+);', content)].  The classes [\s]
    and [[a-zA-Z0-9_.]] are disjoint and [;] is in neither, so the greedy
    match is the only candidate at a position. *)
Definition is_package_char (c : N) : bool :=
  ((97 <=? c) && (c <=? 122) || (65 <=? c) && (c <=? 90)
   || (48 <=? c) && (c <=? 57) || (c =? 95) || (c =? 46))%N.

Fixpoint takewhile {A} (p : A -> bool) (s : list A) : list A :=
  match s with
  | [] => []
  | a :: s' => if p a then a :: takewhile p s' else []
  end.

(** The match at the start of [s]: the group, and the length of the match. *)
Definition match_package_at (s : str) : option (str * nat) :=
  if startswith N.eqb s (lit "package") then
    let s1 := skipn 7 s in
    let spaces := takewhile isspace s1 in
    match spaces with
    | [] => None
    | _ =>
      let s2 := skipn (length spaces) s1 in
      let name := takewhile is_package_char s2 in
      match name with
      | [] => None
      | _ =>
        match skipn (length name) s2 with
        | c :: _ =>
            if (c =? 59)%N
            then Some (name, (7 + length spaces + length name + 1)%nat)
            else None
        | [] => None
        end
      end
    end
  else None.

(** Matches from left to right without overlap: after a match the scan
    resumes behind it ([skip] counts the characters still to pass). *)
Fixpoint findall_from (skip : nat) (s : str) : list str :=
  match s with
  | [] => []
  | _ :: s' =>
      match skip with
      | S k => findall_from k s'
      | O =>
          match match_package_at s with
          | Some (name, n) => name :: findall_from (n - 1) s'
          | None => findall_from 0 s'
          end
      end
  end.

Definition findall_package (content : str) : list str := findall_from 0 content.

(** The body of the loop over [file_list] in [scan_jar_file]; [results] is
    the list built so far. *)
Definition scan_entry (jar : ZipFile) (jar_path : str)
    (results : list PackageRecord) (file_name : str) : list PackageRecord :=
  if endswith N.eqb file_name (lit ".class") then
    let package_path := dirname file_name in
    match package_path with
    | [] => results
    | _ =>
      let package_name := replace_char 47 46 package_path in
      if negb (in_results package_name results)
      then results ++ [(package_name, jar_path)]
      else results
    end
  else if endswith N.eqb file_name (lit ".java") then
    match read jar file_name with
    | Some raw =>
      let content := decode_utf8_ignore raw in
      let matches := findall_package content in
      fold_left
        (fun results m =>
           if negb (in_results m results)
           then results ++ [(m, jar_path)] else results)
        matches results
    | None => results
    end
  else results.

Definition scan_jar_file (w : World) (jar_path : str)
  : list PackageRecord * list line :=
  match zip_at w jar_path with
  | ZipOpened jar =>
      (fold_left (scan_entry jar jar_path) (namelist jar) [], [])
  | ZipRaises e => ([], [ErrorProcessing jar_path e])
  end.

Definition find_jar_files (w : World) (directory : str) : list str :=
  flat_map
    (fun '(root, _, files) =>
       flat_map
         (fun file =>
            if endswith N.eqb (lower file) (lit ".jar")
            then [path_join root file] else [])
         files)
    (os_walk w directory).

(** The aggregation step for one tuple of one archive's results. *)
Definition add_package (package_to_jars : dict (list str))
    (r : PackageRecord) : dict (list str) :=
  let '(package_name, jar_path) := r in
  match get package_to_jars package_name with
  | Some jars =>
      if negb (list_in str_eqb jar_path jars)
      then set package_to_jars package_name (jars ++ [jar_path])
      else package_to_jars
  | None => set package_to_jars package_name [jar_path]
  end.

(** [process_jar_files] behind the enumeration: the scans of the archives
    in order, then the aggregation of their results. *)
Definition process_jar_list (w : World) (jar_files : list str)
  : dict (list str) * list line :=
  let results := map (scan_jar_file w) jar_files in
  (fold_left (fun d jar_results => fold_left add_package jar_results d)
             (map fst results) [],
   flat_map snd results).

Definition process_jar_files (w : World) (directory : str)
  : dict (list str) * list line :=
  let jar_files := find_jar_files w directory in
  let '(package_to_jars, out) := process_jar_list w jar_files in
  (package_to_jars, FoundJarFiles (len jar_files) :: out).

End JarPackageScanner.

(** ** jar_text_scanner.py *)

Module JarTextScanner.
Import Py Os.

(** A match: the tuple [(file_name, jar_path, line_number, matching_line)]. *)
Record MatchRecord := {
  entry_name : str;
  source : str;
  line_number : Z;
  snippet : str
}.

(** What the script prints, one constructor per [print] call (the
    three-line note on quotes is one constructor):
    - [ErrorProcessing]: "Error processing {jar_path}: {e}"
    - [FoundJarFiles]: "Found {n} JAR files to process."
    - [ErrorJarNotFound]: "Error: JAR file '{jar_path}' not found."
    - [ScanningJar]: "Scanning for '{search_text}' in JAR file: {jar_path}"
    - [ScanningDirectory]:
      "Scanning for '{search_text}' in JAR files within: {current_dir}"
    - [SearchResults], [Rule]: the heading "Search results:" and its rule
    - [NoOccurrences]:
      "No occurrences of '{search_text}' found in any JAR files."
    - [JarHeader]: "JAR: {jar_path} ({n} matches)"
    - [MatchLine]: "  - {file_name}:{line_num}: {line}"
    - [MoreMatches]: "  ... and {n} more matches (use --limit to show more)"
    - [Blank]: the empty line after the block of an archive
    - [OutputLimitReached]: "Output limit reached. {remaining_jars} more
      JAR files with matches not shown."
    - [UseTotalLimit]: the hint to use --total-limit
    - [Summary]:
      "Summary: Found {total_matches} matches in {total_jar_count} JAR files."
    - [Displayed]: "Displayed {displayed_matches} out of {total_matches}
      total matches."
    The standard output is taken to encode every character, so the
    fallback for [UnicodeEncodeError] in the loop over the matches is not
    part of the model. *)
Inductive line :=
| ErrorProcessing (jar_path : str) (e : exn)
| FoundJarFiles (n : Z)
| ErrorJarNotFound (jar_path : str)
| ScanningJar (search_text jar_path : str)
| ScanningDirectory (search_text current_dir : str)
| SearchResults
| Rule
| NoOccurrences (search_text : str)
| QuotesNote
| JarHeader (jar_path : str) (n : Z)
| MatchLine (file_name : str) (line_num : Z) (text : str)
| MoreMatches (n : Z)
| Blank
| OutputLimitReached (remaining_jars : Z)
| UseTotalLimit
| Summary (total_matches total_jar_count : Z)
| Displayed (displayed_matches total_matches : Z).

Definition text_extensions : list str :=
  map lit [".java"; ".class"; ".xml"; ".properties"; ".txt"; ".md";
           ".yml"; ".yaml"; ".json"; ".html"; ".css"; ".js"; ".jsp";
           ".config"; ".ini"; ".conf"; ".MF"; ".sql"]%string.

Definition is_target_file (binary_mode : bool) (file_name : str) : bool :=
  if binary_mode then true
  else existsb (fun ext => endswith N.eqb file_name ext) text_extensions
       || negb (contains N.eqb (lit ".") file_name).

(** [re.findall(b'[\x01-\x7F]{3,}', content)]: the maximal runs of bytes
    in the range, of length three or more ([cur] is the run being read,
    last byte first). *)
Definition in_literal_range (b : byte) : bool :=
  ((1 <=? Byte.to_N b) && (Byte.to_N b <=? 127))%N.

Definition close_run (cur : bytes) : list bytes :=
  if (3 <=? length cur)%nat then [rev cur] else [].

Fixpoint literal_runs (cur : bytes) (content : bytes) : list bytes :=
  match content with
  | [] => close_run cur
  | b :: rest =>
      if in_literal_range b then literal_runs (b :: cur) rest
      else close_run cur ++ literal_runs [] rest
  end.

(** The record of a binary match in [content]. *)
Definition binary_match (file_name jar_path : str) (deep_inspection : bool)
    (search_bytes content : bytes) : MatchRecord :=
  let match_pos := find Byte.eqb content search_bytes in
  let start_pos := Z.max 0 (match_pos - 20) in
  let end_pos := Z.min (len content) (match_pos + len search_bytes + 20) in
  let context := slice content start_pos end_pos in
  let context_str := bytes_repr context in
  let context_str :=
    if endswith N.eqb file_name (lit ".class") && deep_inspection then
      match literal_runs [] content with
      | [] => context_str
      | string_matches =>
          lit "String literals: "
          ++ join (lit " | ") (map bytes_repr (slice_to string_matches 20))
      end
    else context_str in
  {| entry_name := file_name; source := jar_path; line_number := 0;
     snippet := lit "Binary match at position " ++ str_of_int match_pos
                ++ lit ": " ++ context_str |}.

(** The records of the lines of [content] that hold the search text. *)
Definition text_matches (file_name jar_path search_text : str)
    (case_sensitive : bool) (content : str) : list MatchRecord :=
  flat_map
    (fun '(line_num, line) =>
       let hit :=
         if case_sensitive then contains N.eqb search_text line
         else contains N.eqb (lower search_text) (lower line) in
       if hit
       then [{| entry_name := file_name; source := jar_path;
                line_number := line_num; snippet := strip line |}]
       else [])
    (enumerate 1 (splitlines content)).

(** The body of the loop over [file_list]: the records one entry adds.
    [search_bytes] is [None] outside binary mode. *)
Definition scan_entry (jar : ZipFile) (jar_path search_text : str)
    (case_sensitive binary_mode deep_inspection : bool)
    (search_bytes : option bytes) (file_name : str) : list MatchRecord :=
  if is_target_file binary_mode file_name then
    match read jar file_name with
    | Some content =>
        if binary_mode then
          match search_bytes with
          | Some search_bytes =>
              if contains Byte.eqb search_bytes content
              then [binary_match file_name jar_path deep_inspection
                                 search_bytes content]
              else []
          | None => []
          end
        else text_matches file_name jar_path search_text case_sensitive
                          (decode_utf8_ignore content)
    | None => []
    end
  else [].

Definition scan_jar_file_for_text (w : World) (jar_path search_text : str)
    (case_sensitive binary_mode deep_inspection : bool)
  : list MatchRecord * list line :=
  match zip_at w jar_path with
  | ZipOpened jar =>
      let file_list := namelist jar in
      if binary_mode then
        match encode_utf8 search_text with
        | Some search_bytes =>
            (flat_map (scan_entry jar jar_path search_text case_sensitive
                         binary_mode deep_inspection (Some search_bytes))
                      file_list, [])
        | None => ([], [ErrorProcessing jar_path UnicodeEncodeError])
        end
      else
        (flat_map (scan_entry jar jar_path search_text case_sensitive
                     binary_mode deep_inspection None)
                  file_list, [])
  | ZipRaises e => ([], [ErrorProcessing jar_path e])
  end.

Definition find_jar_files (w : World) (directory : str) : list str :=
  flat_map
    (fun '(root, _, files) =>
       flat_map
         (fun file =>
            if endswith N.eqb (lower file) (lit ".jar")
            then [path_join root file] else [])
         files)
    (os_walk w directory).

(** The aggregation step for the results of one archive. *)
Definition add_matches (jar_to_matches : dict (list MatchRecord))
    (jar_path : str) (jar_results : list MatchRecord)
  : dict (list MatchRecord) :=
  match jar_results with
  | [] => jar_to_matches
  | _ => set jar_to_matches jar_path jar_results
  end.

(** [process_jar_files] behind the enumeration. *)
Definition process_jar_list (w : World) (jar_files : list str)
    (search_text : str) (case_sensitive binary_mode deep_inspection : bool)
  : dict (list MatchRecord) * list line :=
  let results :=
    map (fun jar_path =>
           scan_jar_file_for_text w jar_path search_text case_sensitive
                                  binary_mode deep_inspection)
        jar_files in
  (fold_left (fun d '(jar_path, jar_results) => add_matches d jar_path jar_results)
             (combine jar_files (map fst results)) [],
   flat_map snd results).

Definition process_jar_files (w : World) (directory search_text : str)
    (case_sensitive binary_mode deep_inspection : bool)
  : dict (list MatchRecord) * list line :=
  let jar_files := find_jar_files w directory in
  let '(jar_to_matches, out) :=
    process_jar_list w jar_files search_text case_sensitive binary_mode
                     deep_inspection in
  (jar_to_matches, FoundJarFiles (len jar_files) :: out).

(** The command line after [argparse]. *)
Record Args := {
  search_text : str;
  directory : str;
  limit : Z;
  total_limit : Z;
  case_sensitive : bool;
  binary : bool;
  jar : option str;
  deep : bool
}.

Definition match_line (m : MatchRecord) : line :=
  MatchLine (entry_name m) (line_number m) (snippet m).

(** The lines printed for one archive of the report: its header, the
    matches up to the limit per archive, the notice of the matches left
    out, and an empty line. *)
Definition show_jar (jar_path : str) (matches : list MatchRecord)
    (limit_per_jar : Z) : list line :=
  let display_count := Z.min (len matches) limit_per_jar in
  JarHeader jar_path (len matches)
  :: map match_line (slice_to matches display_count)
  ++ (if (limit_per_jar <? len matches)%Z
      then [MoreMatches (len matches - limit_per_jar)] else [])
  ++ [Blank].

(** The state of the report loop. *)
Record Report := {
  printed : list line;
  total_matches : Z;
  displayed_matches : Z;
  ended : completion
}.

(** The loop over [sorted(jar_to_matches.keys())], with its [break]. *)
Fixpoint report_loop (jar_to_matches : dict (list MatchRecord))
    (limit_per_jar total_limit total_jar_count : Z) (jar_paths : list str)
    (total displayed : Z) : Report :=
  match jar_paths with
  | [] => {| printed := []; total_matches := total;
             displayed_matches := displayed; ended := Returned |}
  | jar_path :: rest =>
    match get jar_to_matches jar_path with
    | None => {| printed := []; total_matches := total;
                 displayed_matches := displayed; ended := Raised KeyError |}
    | Some matches =>
      let total := (total + len matches)%Z in
      let display_count := Z.min (len matches) limit_per_jar in
      let block := show_jar jar_path matches limit_per_jar in
      let displayed := (displayed + display_count)%Z in
      if (total_limit <=? displayed)%Z then
        match index str_eqb jar_path (keys jar_to_matches) with
        | Some i =>
          let remaining_jars := (total_jar_count - (i + 1))%Z in
          {| printed := block
                        ++ (if (0 <? remaining_jars)%Z
                            then [OutputLimitReached remaining_jars;
                                  UseTotalLimit]
                            else []);
             total_matches := total; displayed_matches := displayed;
             ended := Returned |}
        | None => {| printed := block; total_matches := total;
                     displayed_matches := displayed;
                     ended := Raised ValueError |}
        end
      else
        let r := report_loop jar_to_matches limit_per_jar total_limit
                             total_jar_count rest total displayed in
        {| printed := block ++ printed r;
           total_matches := total_matches r;
           displayed_matches := displayed_matches r;
           ended := ended r |}
    end
  end.

(** The part of [main] that prints the results. *)
Definition print_results (args : Args)
    (jar_to_matches : dict (list MatchRecord)) : list line * completion :=
  match jar_to_matches with
  | [] =>
      ([SearchResults; Rule; NoOccurrences (search_text args)]
       ++ (if contains N.eqb [34%N] (search_text args)
           then [QuotesNote] else []),
       Returned)
  | _ =>
      let total_jar_count := len jar_to_matches in
      let r := report_loop jar_to_matches (limit args) (total_limit args)
                           total_jar_count (sorted (keys jar_to_matches))
                           0 0 in
      match ended r with
      | Returned =>
          ([SearchResults; Rule] ++ printed r
           ++ [Summary (total_matches r) total_jar_count]
           ++ (if (displayed_matches r <? total_matches r)%Z
               then [Displayed (displayed_matches r) (total_matches r)]
               else []),
           Returned)
      | Raised e => ([SearchResults; Rule] ++ printed r, Raised e)
      end
  end.

Definition main (w : World) (args : Args) : list line * completion :=
  let specific_jar :=
    match jar args with
    | Some [] | None => None
    | Some name => Some name
    end in
  match specific_jar with
  | Some specific_jar =>
      let jar_path :=
        if negb (isabs specific_jar)
        then path_join (directory args) specific_jar
        else specific_jar in
      if negb (path_exists w jar_path) then
        ([ErrorJarNotFound jar_path], Returned)
      else
        let '(results, out) :=
          scan_jar_file_for_text w jar_path (search_text args)
            (case_sensitive args) (binary args) (deep args) in
        let jar_to_matches :=
          match results with
          | [] => []
          | _ => [(jar_path, results)]
          end in
        let '(out', c) := print_results args jar_to_matches in
        (ScanningJar (search_text args) jar_path :: out ++ out', c)
  | None =>
      let '(jar_to_matches, out) :=
        process_jar_files w (directory args) (search_text args)
          (case_sensitive args) (binary args) (deep args) in
      let '(out', c) := print_results args jar_to_matches in
      (ScanningDirectory (search_text args) (directory args) :: out ++ out', c)
  end.

(** The script: [asyncio.run(main())], and the status the process exits
    with. *)
Definition run (w : World) (args : Args) : list line * Z :=
  let '(out, c) := main w args in (out, exit_status c).

End JarTextScanner.

(** ** java_text_searcher.py *)

Module JavaTextSearcher.
Import Py Os.

(** The attributes of a [JavaTextSearcher] object. *)
Record Searcher := {
  search_text : str;
  root_dir : str;
  case_sensitive : bool;
  results : dict (list (Z * str));
  java_files : list str
}.

(** [__init__] *)
Definition init (search_text root_dir : str) (case_sensitive : bool)
  : Searcher :=
  {| search_text := search_text; root_dir := root_dir;
     case_sensitive := case_sensitive; results := []; java_files := [] |}.

(** What the class prints; the elapsed time of [SearchCompleted] is not
    part of the model. *)
Inductive line :=
| SearchingForFiles (root_dir : str)
| FoundFiles (n : Z)
| NoJavaFiles
| SearchingIn (search_text : str) (n : Z)
| SearchCompleted
| FoundMatches (match_count files : Z).

Definition _find_java_files_sync (w : World) (self : Searcher) : list str :=
  flat_map
    (fun '(root, _, files) =>
       flat_map
         (fun file =>
            if endswith N.eqb file (lit ".java")
            then [path_join root file] else [])
         files)
    (os_walk w (root_dir self)).

Definition with_java_files (self : Searcher) (l : list str) : Searcher :=
  {| search_text := search_text self; root_dir := root_dir self;
     case_sensitive := case_sensitive self; results := results self;
     java_files := l |}.

Definition with_results (self : Searcher) (d : dict (list (Z * str)))
  : Searcher :=
  {| search_text := search_text self; root_dir := root_dir self;
     case_sensitive := case_sensitive self; results := d;
     java_files := java_files self |}.

Definition find_java_files (w : World) (self : Searcher)
  : list str * Searcher * list line :=
  let found := _find_java_files_sync w self in
  (found, with_java_files self found,
   [SearchingForFiles (root_dir self); FoundFiles (len found)]).

Definition _line_contains_text (self : Searcher) (line : str) : bool :=
  if case_sensitive self then contains N.eqb (search_text self) line
  else contains N.eqb (lower (search_text self)) (lower line).

(** The matches among the lines read in one pass over a file. *)
Definition matching_lines (self : Searcher) (lines : list str)
  : list (Z * str) :=
  flat_map
    (fun '(i, line) =>
       if _line_contains_text self line then [(i, strip line)] else [])
    (enumerate 1 lines).

(** The matches of the UTF-8 pass stay in the list when that pass ends in
    a decoding error and the Latin-1 pass follows. *)
Definition _search_file_sync (w : World) (self : Searcher) (file_path : str)
  : list (Z * str) :=
  let '(lines, e) := lines_at w file_path Utf8 in
  let matches := matching_lines self lines in
  match e with
  | UnicodeDecodeError =>
      let '(lines', _) := lines_at w file_path Latin1 in
      matches ++ matching_lines self lines'
  | Eof | OtherError => matches
  end.

Definition search_file (w : World) (self : Searcher) (file_path : str)
  : str * list (Z * str) :=
  (file_path, _search_file_sync w self file_path).

(** The step of the loop that processes the gathered results. *)
Definition add_result (d : dict (list (Z * str)))
    (r : str * list (Z * str)) : dict (list (Z * str)) :=
  let '(file_path, matches) := r in
  match matches with
  | [] => d
  | _ => set d file_path matches
  end.

Definition search_all_files (w : World) (self : Searcher)
  : dict (list (Z * str)) * Searcher * list line :=
  let '(self, out) :=
    match java_files self with
    | [] => let '(_, self', out) := find_java_files w self in (self', out)
    | _ => (self, [])
    end in
  match java_files self with
  | [] => ([], self, out ++ [NoJavaFiles])
  | files =>
      let gathered := map (search_file w self) files in
      let d := fold_left add_result gathered (results self) in
      let match_count :=
        fold_left (fun n kv => (n + len (snd kv))%Z) d 0%Z in
      (d, with_results self d,
       out ++ [SearchingIn (search_text self) (len files); SearchCompleted;
               FoundMatches match_count (len d)])
  end.

End JavaTextSearcher.

(** ** jar_package_scanner.py: the report *)

Module JarPackageMain.
Import Py Os JarPackageScanner.

(** What [main] prints: the lines of [process_jar_files] ([Scan]), and
    - [ScanningFor]: "Scanning for JAR files in: {current_dir}"
    - [ResultsHeader], [Rule]: the heading "JAR files with package names:"
      and its rule
    - [NoJarFiles]: "No JAR files with packages found."
    - [Jar]: "JAR: {jar_path}"
    - [Package]: "  - {package_name}"
    - [Blank]: the empty line after the packages of an archive
    - [Summary]: "Summary: Found {total_packages} unique package names in
      {total_jars} JAR files." *)
Inductive report_line :=
| ScanningFor (current_dir : str)
| Scan (l : line)
| ResultsHeader
| Rule
| NoJarFiles
| Jar (jar_path : str)
| Package (package_name : str)
| Blank
| Summary (total_packages total_jars : Z).

(** The body of the inner loop of the conversion to [jar_to_packages]. *)
Definition add_jar (jar_to_packages : dict (list str))
    (package_name jar_path : str) : dict (list str) :=
  let d :=
    match get jar_to_packages jar_path with
    | None => set jar_to_packages jar_path []
    | Some _ => jar_to_packages
    end in
  match get d jar_path with
  | Some packages => set d jar_path (packages ++ [package_name])
  | None => d
  end.

(** The conversion of [package_to_jars] to [jar_to_packages]. *)
Definition invert (package_to_jars : dict (list str)) : dict (list str) :=
  fold_left
    (fun d '(package_name, jar_paths) =>
       fold_left (fun d jar_path => add_jar d package_name jar_path)
                 jar_paths d)
    package_to_jars [].

(** The lines of one archive of the report. *)
Definition jar_block (jar_path : str) (packages : list str)
  : list report_line :=
  Jar jar_path :: map Package (sorted packages) ++ [Blank].

(** [main]; [current_dir] is what [os.getcwd()] returns. *)
Definition main (w : World) (current_dir : str) : list report_line :=
  let '(package_to_jars, out) := process_jar_files w current_dir in
  let jar_to_packages := invert package_to_jars in
  ScanningFor current_dir :: map Scan out
  ++ [ResultsHeader; Rule]
  ++ match jar_to_packages with
     | [] => [NoJarFiles]
     | _ =>
         flat_map
           (fun jar_path =>
              match get jar_to_packages jar_path with
              | Some packages => jar_block jar_path packages
              | None => []
              end)
           (sorted (keys jar_to_packages))
     end
  ++ [Summary (len package_to_jars) (len jar_to_packages)].

End JarPackageMain.

(** ** java_text_searcher.py: the display *)

Module JavaTextDisplay.
Import Py Os JavaTextSearcher.

(** What the script prints: the lines of the search ([Log]), and
    - [NoMatchesFound]: "No matches found."
    - [FileHeader]: "{file_path} ({n} matches):"
    - [Rule]: the rule before and after the matches of a file
    - [MatchLine]: "{line_num:5d}: {line}" *)
Inductive display_line :=
| Log (l : line)
| NoMatchesFound
| FileHeader (file_path : str) (n : Z)
| Rule
| MatchLine (line_num : Z) (text : str).

Definition file_block (file_path : str) (matches : list (Z * str))
  : list display_line :=
  FileHeader file_path (len matches) :: Rule
  :: map (fun m => MatchLine (fst m) (snd m)) matches ++ [Rule].

Definition display_results (self : Searcher) : list display_line :=
  match results self with
  | [] => [NoMatchesFound]
  | items => flat_map (fun kv => file_block (fst kv) (snd kv)) items
  end.

Definition main (w : World) (search_text root_dir : str)
    (case_sensitive : bool) : list display_line :=
  let searcher := init search_text root_dir case_sensitive in
  let '(_, searcher, out1) := find_java_files w searcher in
  let '(_, searcher, out2) := search_all_files w searcher in
  map Log (out1 ++ out2) ++ display_results searcher.

End JavaTextDisplay.

(** ** The properties, in the words of the specification *)

Module Spec.
Import Py Os.

(** [tree_file top t root f]: in the directory [t] at path [top], the
    directory at path [root] holds the file named [f]. *)
Inductive tree_file : str -> tree -> str -> str -> Prop :=
| file_here top files dirs f :
    In f files -> tree_file top (Node files dirs) top f
| file_below top files dirs d sub root f :
    In (d, sub) dirs ->
    tree_file (path_join top d) sub root f ->
    tree_file top (Node files dirs) root f.

(** The name ends with the suffix. *)
Definition ends_with (f suffix : str) : Prop :=
  exists pre, f = pre ++ suffix.

(** The name ends with the suffix, letters compared without regard to
    case. *)
Definition same_letter (a b : N) : Prop := lower_char a = lower_char b.

Definition ends_with_ci (f suffix : str) : Prop :=
  exists pre tail, f = pre ++ tail /\ Forall2 same_letter tail suffix.

(** [found] holds exactly the files of the tree at [top] whose names
    satisfy [good]. *)
Definition enumerates (w : World) (top : str) (good : str -> Prop)
    (found : list str) : Prop :=
  forall p,
    In p found <->
    exists t root f,
      tree_at w top = Some t /\ tree_file top t root f /\ good f
      /\ p = path_join root f.

(** An enumerator that keeps the files whose names pass [keep]. *)
Definition enumerate_by (keep : str -> bool) (w : World) (top : str)
  : list str :=
  flat_map
    (fun '(root, _, files) =>
       flat_map
         (fun file => if keep file then [path_join root file] else [])
         files)
    (os_walk w top).

End Spec.

Module TextSpec.
Import Py Os JarTextScanner.

Definition is_match_line (l : line) : bool :=
  match l with
  | MatchLine _ _ _ => true
  | _ => false
  end.

(** The number of match lines in a report. *)
Definition count_match_lines (out : list line) : nat :=
  length (filter is_match_line out).

(** The number of matches of a scan result, over all its sources. *)
Definition true_total (jar_to_matches : dict (list MatchRecord)) : Z :=
  fold_right (fun kv n => (len (snd kv) + n)%Z) 0%Z jar_to_matches.

(** The path [main] gives to a specifically named archive. *)
Definition requested_path (args : Args) (name : str) : str :=
  if negb (isabs name) then path_join (directory args) name else name.

(** The records of one archive under the arguments of a run. *)
Definition scan_of (w : World) (args : Args) (jar_path : str)
  : list MatchRecord :=
  fst (scan_jar_file_for_text w jar_path (search_text args)
         (case_sensitive args) (binary args) (deep args)).


(** No record of the scan belongs to an entry of the archive whose content
    is empty. *)
Definition empty_entries_never_match (w : World) (jar_path search_text : str)
    (case_sensitive binary_mode deep_inspection : bool) : Prop :=
  forall jar name,
    zip_at w jar_path = ZipOpened jar ->
    In name (namelist jar) ->
    read jar name = Some [] ->
    forall r,
      In r (fst (scan_jar_file_for_text w jar_path search_text
                   case_sensitive binary_mode deep_inspection)) ->
      entry_name r <> name.


(** How often a name occurs in a listing. *)
Definition occurrences (name : str) (names : list str) : nat :=
  length (filter (str_eqb name) names).

End TextSpec.

Module JavaSpec.
Import Py Os JavaTextSearcher.

(** The files a call of [search_all_files] searches: those the object
    holds, or else those it finds. *)
Definition files_to_search (w : World) (self : Searcher) : list str :=
  match java_files self with
  | [] => _find_java_files_sync w self
  | files => files
  end.

End JavaSpec.

Module PackageSpec.
Import Py JarPackageScanner.

(** The pattern [package\s+([a-zA-Z0-9_.]+);] matches at the start of [s],
    with [name] as its group and [n] characters in all. *)
Definition package_match_at (s name : str) (n : nat) : Prop :=
  exists spaces rest,
    s = lit "package" ++ spaces ++ name ++ 59%N :: rest
    /\ spaces <> [] /\ forallb isspace spaces = true
    /\ name <> [] /\ forallb is_package_char name = true
    /\ n = (7 + length spaces + length name + 1)%nat.

End PackageSpec.

(** ** Concrete worlds and inputs *)

Module Examples.
Import Py Os.


(** A world with the archive [jar] at [jar_path], and the directory [t] at
    [top]. *)
Definition world_with (top : str) (t : tree) (jar_path : str) (jar : ZipFile)
  : World :=
  {| tree_at := fun p => if str_eqb p top then Some t else None;
     path_exists := fun p => str_eqb p jar_path;
     zip_at := fun p => if str_eqb p jar_path then ZipOpened jar
                        else ZipRaises BadZipFile;
     lines_at := fun _ _ => ([], OtherError) |}.

(** An archive with two classes of one package. *)
Definition two_classes : ZipFile :=
  {| namelist := [lit "com/acme/Foo.class"; lit "com/acme/Bar.class"];
     read := fun _ => Some [] |}.

(** An archive with two source files that declare the same package. *)
Definition two_sources : ZipFile :=
  {| namelist := [lit "src/A.java"; lit "src/B.java"];
     read := fun _ => Some (blit "package com.acme; class C {}") |}.

(** An archive with one entry, of empty content. *)
Definition one_empty_entry : ZipFile :=
  {| namelist := [lit "empty.bin"];
     read := fun _ => Some [] |}.

(** An archive with a class file that holds the bytes of [TODO] twice, and
    a text file of five lines with [TODO]. *)
Definition notes_jar : ZipFile :=
  {| namelist := [lit "com/acme/Foo.class"; lit "notes.txt"];
     read := fun name =>
       if str_eqb name (lit "notes.txt")
       then Some (flat_map (fun _ => blit "TODO" ++ [x0a]) (seq 0 5))
       else Some ([xca; xfe; xba; xbe] ++ blit "TODO and TODO") |}.

Definition lib_dir : tree :=
  Node [lit "a.JAR"; lit "notes.txt"]
       [(lit "sub", Node [lit "b.jar"; lit "Main.Java"; lit "Util.java"] [])].

Definition lib_world : World :=
  world_with (lit "/lib") lib_dir (lit "/lib/a.JAR") notes_jar.

End Examples.

Module TextExamples.
Import Py Os JarTextScanner.

(** [n] matches of [TODO] in the text file of an archive. *)
Definition matches_in (jar_path : str) (n : nat) : list MatchRecord :=
  map (fun i => {| entry_name := lit "notes.txt"; source := jar_path;
                   line_number := Z.of_nat i; snippet := lit "TODO" |})
      (seq 1 n).

(** A scan result with three matches in one archive and two in another. *)
Definition two_jars : dict (list MatchRecord) :=
  [(lit "a.jar", matches_in (lit "a.jar") 3);
   (lit "b.jar", matches_in (lit "b.jar") 2)].

(** A search for [TODO] under [/lib] with the given limits and, if any, the
    archive named on the command line. *)
Definition todo_args (limit total_limit : Z) (jar : option str) : Args :=
  {| search_text := lit "TODO"; directory := lit "/lib"; limit := limit;
     total_limit := total_limit; case_sensitive := true; binary := false;
     jar := jar; deep := false |}.

End TextExamples.

(** ** Notions for the further properties *)

Module MoreSpec.
Import Py Os.

(** The list [part] is a run of consecutive elements of [whole]. *)
Definition part_of {A} (part whole : list A) : Prop :=
  exists pre post, whole = pre ++ part ++ post.

(** The test of a line against the search text. *)
Definition hit (case_sensitive : bool) (search_text line : str) : bool :=
  if case_sensitive then contains N.eqb search_text line
  else contains N.eqb (lower search_text) (lower line).

(** The archives named by the headers of a report, in order of
    appearance. *)
Definition headers (out : list JarTextScanner.line) : list str :=
  flat_map (fun l => match l with
                     | JarTextScanner.JarHeader p _ => [p]
                     | _ => []
                     end) out.

(** The lines that belong to the report of the results. *)
Definition is_report_line (l : JarTextScanner.line) : bool :=
  match l with
  | JarTextScanner.ErrorProcessing _ _ | JarTextScanner.FoundJarFiles _
  | JarTextScanner.ErrorJarNotFound _ | JarTextScanner.ScanningJar _ _
  | JarTextScanner.ScanningDirectory _ _ => false
  | _ => true
  end.

(** The number of matches a report without total limit displays. *)
Definition shown_total (jar_to_matches : dict (list JarTextScanner.MatchRecord))
    (limit_per_jar : Z) : Z :=
  fold_right (fun kv n => (Z.min (len (snd kv)) limit_per_jar + n)%Z) 0%Z
             jar_to_matches.

(** The order of [str] values, as a relation. *)
Definition leq (a b : str) : Prop := str_leb a b = true.

(** The matches a scan result holds for a path; none for a path that is
    not a key. *)
Definition matches_of (jar_to_matches : dict (list JarTextScanner.MatchRecord))
    (p : str) : list JarTextScanner.MatchRecord :=
  match get jar_to_matches p with
  | Some ms => ms
  | None => []
  end.

(** The sum of [g] over a list of paths. *)
Definition sum_over (g : str -> Z) (paths : list str) : Z :=
  fold_right (fun p acc => (g p + acc)%Z) 0%Z paths.

(** The list a dictionary of lists holds for a key; empty for a key that
    is not there. *)
Definition listed (d : dict (list str)) (k : str) : list str :=
  match get d k with
  | Some l => l
  | None => []
  end.

(** The list is not empty. *)
Definition has_records {A} (l : list A) : bool :=
  match l with
  | [] => false
  | _ :: _ => true
  end.

(** The package names an entry of an archive gives. *)
Definition entry_packages (jar : ZipFile) (file_name : str) : list str :=
  if endswith N.eqb file_name (lit ".class") then
    match dirname file_name with
    | [] => []
    | package_path => [replace_char 47 46 package_path]
    end
  else if endswith N.eqb file_name (lit ".java") then
    match read jar file_name with
    | Some raw => JarPackageScanner.findall_package (decode_utf8_ignore raw)
    | None => []
    end
  else [].

(** The number of file headers in what the source-file script displays. *)
Definition count_files (out : list JavaTextDisplay.display_line) : Z :=
  len (filter (fun l => match l with
                        | JavaTextDisplay.FileHeader _ _ => true
                        | _ => false
                        end) out).

(** The number of match lines in what the source-file script displays. *)
Definition count_displayed (out : list JavaTextDisplay.display_line) : Z :=
  len (filter (fun l => match l with
                        | JavaTextDisplay.MatchLine _ _ => true
                        | _ => false
                        end) out).

(** The number of matches a searcher holds. *)
Definition held_matches (results : dict (list (Z * str))) : Z :=
  fold_right (fun kv n => (len (snd kv) + n)%Z) 0%Z results.

End MoreSpec.

Module JavaExamples.
Import Py Os.

(** A source tree with a file that reads as UTF-8 and one that does not:
    the UTF-8 reading of [Old.java] gives one line and then fails, the
    Latin-1 reading gives that line and one more. *)
Definition src_world : World :=
  {| tree_at := fun p =>
       if str_eqb p (lit "/src")
       then Some (Node [lit "Main.java"; lit "Old.java"; lit "README.md"] [])
       else None;
     path_exists := fun _ => true;
     zip_at := fun _ => ZipRaises BadZipFile;
     lines_at := fun p enc =>
       if str_eqb p (lit "/src/Main.java") then
         ([lit "import x;" ++ [10%N]; lit "class Main {}" ++ [10%N];
           lit "  // Import later" ++ [10%N]], Eof)
       else if str_eqb p (lit "/src/Old.java") then
         match enc with
         | Utf8 => ([lit "import a;" ++ [10%N]], UnicodeDecodeError)
         | Latin1 => ([lit "import a;" ++ [10%N];
                       lit "import caf" ++ [233%N; 59%N; 10%N]], Eof)
         end
       else ([], OtherError) |}.

End JavaExamples.

(** ** Facts about the primitives *)

Module PyFacts.
Import Py.

Section SequenceFacts.
Context {A : Type} (eqb : A -> A -> bool).
Hypothesis eqb_eq : forall a b, eqb a b = true <-> a = b.

Lemma seq_eqb_eq (s t : list A) : seq_eqb eqb s t = true <-> s = t.
Proof.
  revert t; induction s as [|a s IH]; intros [|b t]; simpl;
    try (split; [discriminate | discriminate]); try tauto.
  rewrite andb_true_iff, eqb_eq, IH.
  split; [intros [-> ->]; reflexivity | intros [= -> ->]; auto].
Qed.

Lemma seq_eqb_refl (s : list A) : seq_eqb eqb s s = true.
Proof. apply seq_eqb_eq; reflexivity. Qed.

Lemma startswith_iff (s p : list A) :
  startswith eqb s p = true <-> exists r, s = p ++ r.
Proof.
  revert s; induction p as [|b p IH]; intros s; simpl.
  - split; [intros _; exists s; reflexivity | reflexivity].
  - destruct s as [|a s].
    + split; [discriminate | intros [r [=]]].
    + rewrite andb_true_iff, eqb_eq, IH. split.
      * intros [-> [r ->]]; exists r; reflexivity.
      * intros [r [= -> ->]]; split; [reflexivity | exists r; reflexivity].
Qed.

Lemma endswith_iff (s suf : list A) :
  endswith eqb s suf = true <-> exists pre, s = pre ++ suf.
Proof.
  unfold endswith. rewrite andb_true_iff, Nat.leb_le, seq_eqb_eq. split.
  - intros [_ H]. exists (firstn (length s - length suf) s).
    pose proof (firstn_skipn (length s - length suf) s) as E.
    rewrite H in E. symmetry. exact E.
  - intros [pre ->]. rewrite length_app. split; [lia|].
    replace (length pre + length suf - length suf)%nat
      with (length pre + 0)%nat by lia.
    rewrite skipn_app, Nat.add_0_r, skipn_all.
    replace (length pre - length pre)%nat with 0%nat by lia.
    reflexivity.
Qed.

Lemma contains_iff (needle s : list A) :
  contains eqb needle s = true <-> exists pre post, s = pre ++ needle ++ post.
Proof.
  induction s as [|a s IH]; simpl.
  - rewrite orb_false_r, startswith_iff. split.
    + intros [r H]. exists [], r. exact H.
    + intros [pre [post H]]. destruct pre as [|x pre]; [|discriminate H].
      exists post. exact H.
  - rewrite orb_true_iff, startswith_iff, IH. split.
    + intros [[r H] | [pre [post H]]].
      * exists [], r. exact H.
      * exists (a :: pre), post. rewrite H. reflexivity.
    + intros [pre [post H]]. destruct pre as [|x pre].
      * left. exists post. exact H.
      * right. injection H as _ H. exists pre, post. exact H.
Qed.

Lemma contains_nil_r (needle : list A) :
  contains eqb needle [] = true <-> needle = [].
Proof.
  destruct needle; simpl; split; intros; try reflexivity; discriminate.
Qed.

Lemma list_in_iff (x : A) (l : list A) : list_in eqb x l = true <-> In x l.
Proof.
  unfold list_in. rewrite existsb_exists. split.
  - intros [y [Hy E]]. apply eqb_eq in E. subst. exact Hy.
  - intros H. exists x. split; [exact H | apply eqb_eq; reflexivity].
Qed.

Lemma index_in (x : A) (l : list A) :
  In x l -> exists i, index eqb x l = Some i.
Proof.
  induction l as [|a l IH]; simpl; [tauto|].
  intros [-> | H].
  - exists 0%Z. replace (eqb x x) with true; [reflexivity|].
    symmetry; apply eqb_eq; reflexivity.
  - destruct (eqb a x); [eexists; reflexivity|].
    destruct (IH H) as [i ->]. eexists; reflexivity.
Qed.
End SequenceFacts.

Lemma N_eqb_eq (a b : N) : N.eqb a b = true <-> a = b.
Proof. apply N.eqb_eq. Qed.

Lemma byte_eqb_eq (a b : byte) : Byte.eqb a b = true <-> a = b.
Proof.
  split; [apply Byte.byte_dec_bl | apply Byte.byte_dec_lb].
Qed.

Lemma str_eqb_eq (s t : str) : str_eqb s t = true <-> s = t.
Proof. apply seq_eqb_eq, N_eqb_eq. Qed.

Lemma str_eqb_refl (s : str) : str_eqb s s = true.
Proof. apply str_eqb_eq; reflexivity. Qed.

Lemma str_eqb_neq (s t : str) : str_eqb s t = false <-> s <> t.
Proof.
  rewrite <- str_eqb_eq. destruct (str_eqb s t); split; congruence.
Qed.

Lemma str_eqb_sym (s t : str) : str_eqb s t = str_eqb t s.
Proof.
  destruct (str_eqb s t) eqn:E.
  - apply str_eqb_eq in E. subst. symmetry; apply str_eqb_refl.
  - destruct (str_eqb t s) eqn:E'; [|reflexivity].
    apply str_eqb_eq in E'. subst. rewrite str_eqb_refl in E. discriminate.
Qed.

(** Slices from the start. *)
Lemma slice_to_firstn {A} (s : list A) (n : Z) :
  (0 <= n)%Z -> slice_to s n = firstn (Z.to_nat n) s.
Proof.
  intros Hn. unfold slice_to, slice, clamp_index.
  change (0 <? 0)%Z with false. cbv iota.
  destruct (n <? 0)%Z eqn:E; [apply Z.ltb_lt in E; lia|].
  rewrite (Z.min_l 0) by lia. rewrite Z.sub_0_r. simpl.
  destruct (Z.le_gt_cases n (Z.of_nat (length s))).
  - rewrite Z.min_l by lia. reflexivity.
  - rewrite Z.min_r by lia. rewrite Nat2Z.id.
    rewrite firstn_all. symmetry. apply firstn_all2. lia.
Qed.

(** The dictionary. *)
Section DictFacts.
Context {V : Type}.
Implicit Types (d : dict V) (k q : str) (v : V).

Lemma get_set d k v q :
  get (set d k v) q = if str_eqb k q then Some v else get d q.
Proof.
  induction d as [|[k' v'] d IH]; simpl.
  - reflexivity.
  - destruct (str_eqb k' k) eqn:E; simpl.
    + apply str_eqb_eq in E. subst k'.
      destruct (str_eqb k q); reflexivity.
    + destruct (str_eqb k' q) eqn:E'.
      * apply str_eqb_eq in E'. subst k'.
        rewrite str_eqb_sym, E. reflexivity.
      * exact IH.
Qed.

Lemma keys_set d k v q : In q (keys (set d k v)) <-> q = k \/ In q (keys d).
Proof.
  unfold keys. induction d as [|[k' v'] d IH]; simpl.
  - intuition.
  - destruct (str_eqb k' k) eqn:E; simpl.
    + apply str_eqb_eq in E. subst k'. intuition.
    + rewrite IH. intuition.
Qed.

Lemma get_in_keys d q : In q (keys d) <-> exists v, get d q = Some v.
Proof.
  unfold keys. induction d as [|[k' v'] d IH]; simpl.
  - split; [tauto | intros [v [=]]].
  - destruct (str_eqb k' q) eqn:E.
    + apply str_eqb_eq in E. subst. split; eauto.
    + apply str_eqb_neq in E. rewrite <- IH. intuition.
Qed.

Lemma set_nonempty d k v : set d k v <> [].
Proof.
  destruct d as [|[k' v'] d]; simpl; [discriminate|].
  destruct (str_eqb k' k); discriminate.
Qed.
End DictFacts.

Lemma insert_sorted_in (x y : str) (l : list str) :
  In y (insert_sorted x l) <-> y = x \/ In y l.
Proof.
  induction l as [|a l IH]; simpl.
  - intuition.
  - destruct (str_leb x a); simpl; [intuition|].
    rewrite IH. intuition.
Qed.

Lemma sorted_in (y : str) (l : list str) : In y (sorted l) <-> In y l.
Proof.
  unfold sorted. induction l as [|a l IH]; simpl; [tauto|].
  rewrite insert_sorted_in, IH. intuition.
Qed.

(** The encoding of a character is never empty. *)
Lemma encode_utf8_nonempty (s : str) (bs : bytes) :
  encode_utf8 s = Some bs -> s <> [] -> bs <> [].
Proof.
  destruct s as [|c s]; [congruence|]. intros H _. simpl in H.
  destruct (encode_utf8_char c) as [cs|] eqn:Ec; [|discriminate].
  destruct (encode_utf8 s) as [rest|]; [|discriminate].
  injection H as <-. unfold encode_utf8_char in Ec.
  repeat match type of Ec with
         | (if ?b then _ else _) = _ => destruct b
         end; try discriminate; injection Ec as <-; discriminate.
Qed.

(** Decoding leaves ASCII bytes as they are. *)
Lemma decode_utf8_ascii (bs : bytes) :
  forallb (fun b => (Byte.to_N b <? 128)%N) bs = true ->
  decode_utf8_ignore bs = map Byte.to_N bs.
Proof.
  induction bs as [|b bs IH]; intros H; [reflexivity|].
  simpl in H. apply andb_true_iff in H. destruct H as [Hb H].
  cbn [decode_utf8_ignore map]. rewrite Hb. f_equal. apply IH. exact H.
Qed.
End PyFacts.

(** ** Properties of jar_text_scanner.py *)

Module JarTextScannerFacts.
Import Py Os JarTextScanner TextSpec PyFacts.



(** Every record of an entry carries the name of the entry, and no line
    number in binary mode. *)
Lemma scan_entry_name jar jar_path search_text case_sensitive binary_mode
    deep search_bytes file_name r :
  In r (scan_entry jar jar_path search_text case_sensitive binary_mode deep
                   search_bytes file_name) ->
  entry_name r = file_name.
Proof.
  unfold scan_entry.
  destruct (is_target_file binary_mode file_name); [|intros []].
  destruct (read jar file_name) as [content|]; [|intros []].
  destruct binary_mode.
  - destruct search_bytes as [sb|]; [|intros []].
    destruct (contains Byte.eqb sb content); [|intros []].
    intros [<- | []]. reflexivity.
  - unfold text_matches. intros H. apply in_flat_map in H.
    destruct H as [[line_num line] [_ H]].
    destruct (if case_sensitive then _ else _); [|destruct H].
    destruct H as [<- | []]. reflexivity.
Qed.

Lemma filter_none {A} (p : A -> bool) (l : list A) :
  (forall x, In x l -> p x = false) -> filter p l = [].
Proof.
  induction l as [|a l IH]; simpl; intros H; [reflexivity|].
  rewrite (H a (or_introl eq_refl)). apply IH. intros x Hx. apply H. right.
  exact Hx.
Qed.

(** The records of an archive that opened are those of its entries, in the
    order of the listing. *)
Lemma scan_opened w jar_path jar search_text case_sensitive binary_mode deep :
  zip_at w jar_path = ZipOpened jar ->
  fst (scan_jar_file_for_text w jar_path search_text case_sensitive
                              binary_mode deep)
  = if binary_mode then
      match encode_utf8 search_text with
      | Some sb =>
          flat_map (scan_entry jar jar_path search_text case_sensitive true
                               deep (Some sb)) (namelist jar)
      | None => []
      end
    else flat_map (scan_entry jar jar_path search_text case_sensitive false
                              deep None) (namelist jar).
Proof.
  intros H. unfold scan_jar_file_for_text. rewrite H.
  destruct binary_mode; [destruct (encode_utf8 search_text)|]; reflexivity.
Qed.

(** An archive that does not open gives no record. *)
Lemma text_scan_raises w jar_path e search_text case_sensitive binary_mode deep :
  zip_at w jar_path = ZipRaises e ->
  fst (scan_jar_file_for_text w jar_path search_text case_sensitive
                              binary_mode deep) = [].
Proof.
  intros H. unfold scan_jar_file_for_text. rewrite H. reflexivity.
Qed.

(** C7, as the claim states it, fails: in binary mode the empty search
    string is found in the empty content of an entry. *)
Lemma empty_search_matches_empty_entry :
  ~ empty_entries_never_match
      (Examples.world_with [] (Node [] []) (lit "e.jar")
                           Examples.one_empty_entry)
      (lit "e.jar") [] false true false.
Proof.
  intros H.
  refine (H Examples.one_empty_entry (lit "empty.bin") _ _ _
            (binary_match (lit "empty.bin") (lit "e.jar") false [] []) _ _);
    try reflexivity; left; reflexivity.
Qed.

(** C7, amended.  In text mode, and in binary mode when the search string
    is not empty, an entry whose content is empty gives no record. *)
Theorem empty_entry_no_match w jar_path search_text case_sensitive
    binary_mode deep :
  binary_mode = false \/ search_text <> [] ->
  empty_entries_never_match w jar_path search_text case_sensitive binary_mode
                            deep.
Proof.
  intros Hcond jar name Hzip _ Hread r Hr Hname.
  rewrite (scan_opened _ _ _ _ _ _ _ Hzip) in Hr.
  destruct binary_mode.
  - destruct Hcond as [Hb | Hne]; [discriminate|].
    destruct (encode_utf8 search_text) as [sb|] eqn:Esb; [|destruct Hr].
    apply in_flat_map in Hr. destruct Hr as [n [_ Hr]].
    pose proof (scan_entry_name _ _ _ _ _ _ _ _ _ Hr) as En.
    rewrite Hname in En. subst n.
    unfold scan_entry in Hr. simpl in Hr. rewrite Hread in Hr.
    destruct (contains Byte.eqb sb []) eqn:Ec; [|destruct Hr].
    apply (contains_nil_r Byte.eqb) in Ec.
    exact (encode_utf8_nonempty _ _ Esb Hne Ec).
  - apply in_flat_map in Hr. destruct Hr as [n [_ Hr]].
    pose proof (scan_entry_name _ _ _ _ _ _ _ _ _ Hr) as En.
    rewrite Hname in En. subst n.
    unfold scan_entry in Hr. rewrite Hread in Hr.
    destruct (is_target_file false name); exact Hr.
Qed.

Lemma empty_entry_no_match_witness :
  empty_entries_never_match
    (Examples.world_with [] (Node [] []) (lit "e.jar")
                         Examples.one_empty_entry)
    (lit "e.jar") (lit "x") false true false.
Proof.
  apply empty_entry_no_match. right. discriminate.
Defined.

(** C6.  In binary mode an entry whose bytes hold the UTF-8 encoding of
    the search string gives one record, however often the string occurs; the
    record has line number zero and a snippet that is not empty, and the
    scan of the archive holds it once for each time the listing names the
    entry. *)
Theorem binary_match_once w jar_path jar search_text case_sensitive deep
    search_bytes name content :
  zip_at w jar_path = ZipOpened jar ->
  encode_utf8 search_text = Some search_bytes ->
  read jar name = Some content ->
  (exists pre post, content = pre ++ search_bytes ++ post) ->
  let results :=
    fst (scan_jar_file_for_text w jar_path search_text case_sensitive true
                                deep) in
  let r := binary_match name jar_path deep search_bytes content in
  scan_entry jar jar_path search_text case_sensitive true deep
             (Some search_bytes) name = [r]
  /\ filter (fun m => str_eqb name (entry_name m)) results
     = repeat r (occurrences name (namelist jar))
  /\ entry_name r = name /\ line_number r = 0%Z /\ snippet r <> [].
Proof.
  intros Hzip Hsb Hread Hocc results r.
  assert (Hone : scan_entry jar jar_path search_text case_sensitive true deep
                            (Some search_bytes) name = [r]).
  { unfold scan_entry. simpl. rewrite Hread.
    apply (contains_iff Byte.eqb byte_eqb_eq) in Hocc. rewrite Hocc.
    reflexivity. }
  split; [exact Hone|]. split; [|repeat split].
  - unfold results. rewrite (scan_opened _ _ _ _ _ _ _ Hzip), Hsb.
    unfold occurrences. induction (namelist jar) as [|n l IH]; simpl.
    + reflexivity.
    + rewrite filter_app, IH. destruct (str_eqb name n) eqn:E.
      * apply str_eqb_eq in E. subst n. rewrite Hone. simpl.
        rewrite str_eqb_refl. reflexivity.
      * rewrite filter_none; [reflexivity|].
        intros m Hm. apply scan_entry_name in Hm. rewrite Hm. exact E.
  - unfold r, binary_match. cbn [snippet]. intros E.
    apply (f_equal (@length N)) in E. rewrite length_app in E.
    simpl in E. lia.
Qed.

Lemma binary_match_once_witness :
  let r := binary_match (lit "com/acme/Foo.class") (lit "/lib/a.JAR") false
                        (blit "TODO")
                        ([xca; xfe; xba; xbe] ++ blit "TODO and TODO") in
  scan_entry Examples.notes_jar (lit "/lib/a.JAR") (lit "TODO") true true
             false (Some (blit "TODO")) (lit "com/acme/Foo.class") = [r]
  /\ filter (fun m => str_eqb (lit "com/acme/Foo.class") (entry_name m))
            (fst (scan_jar_file_for_text Examples.lib_world (lit "/lib/a.JAR")
                    (lit "TODO") true true false))
     = repeat r (occurrences (lit "com/acme/Foo.class")
                             (namelist Examples.notes_jar))
  /\ entry_name r = lit "com/acme/Foo.class"
  /\ line_number r = 0%Z /\ snippet r <> [].
Proof.
  apply (binary_match_once Examples.lib_world (lit "/lib/a.JAR")
           Examples.notes_jar (lit "TODO") true false (blit "TODO")
           (lit "com/acme/Foo.class")
           ([xca; xfe; xba; xbe] ++ blit "TODO and TODO")).
  - reflexivity.
  - reflexivity.
  - reflexivity.
  - exists [xca; xfe; xba; xbe], (blit " and TODO"). reflexivity.
Defined.

(** The match lines of a block, counted. *)
Lemma count_match_lines_app (a b : list line) :
  count_match_lines (a ++ b) = (count_match_lines a + count_match_lines b)%nat.
Proof.
  unfold count_match_lines. rewrite filter_app, length_app. reflexivity.
Qed.

Lemma count_match_lines_map (ms : list MatchRecord) :
  count_match_lines (map match_line ms) = length ms.
Proof.
  unfold count_match_lines. induction ms as [|m ms IH]; simpl; congruence.
Qed.



(** A negative limit is a slice bound counted from the end: with five
    matches and the limit -1 the block shows four and announces six more. *)
Example negative_limit_counts_from_the_end :
  show_jar (lit "/lib/a.JAR") (TextExamples.matches_in (lit "/lib/a.JAR") 5)
           (-1)
  = JarHeader (lit "/lib/a.JAR") 5
    :: map match_line (TextExamples.matches_in (lit "/lib/a.JAR") 4)
    ++ [MoreMatches 6; Blank].
Proof. reflexivity. Qed.

(** C2 at an input where the code departs from it: with a total limit of
    two, a limit per archive of ten, and archives of three and two matches,
    the report shows three match lines and its summary counts three matches,
    while the scan result holds five. *)
Theorem total_limit_overrun_and_undercount :
  let args := TextExamples.todo_args 10 2 None in
  let out := fst (print_results args TextExamples.two_jars) in
  total_limit args = 2%Z
  /\ count_match_lines out = 3%nat
  /\ true_total TextExamples.two_jars = 5%Z
  /\ out = [SearchResults; Rule]
           ++ show_jar (lit "a.jar") (TextExamples.matches_in (lit "a.jar") 3) 10
           ++ [OutputLimitReached 1; UseTotalLimit; Summary 3 2].
Proof.
  repeat split.
Qed.

(** The report loop never raises: the paths it visits are keys of the
    result. *)
Lemma report_loop_returns (d : dict (list MatchRecord)) lim tl cnt paths t n :
  (forall p, In p paths -> In p (keys d)) ->
  ended (report_loop d lim tl cnt paths t n) = Returned.
Proof.
  revert t n. induction paths as [|p paths IH]; intros t n Hk; simpl.
  - reflexivity.
  - destruct (proj1 (get_in_keys d p) (Hk p (or_introl eq_refl))) as [ms ->].
    destruct (tl <=? n + Z.min (len ms) lim)%Z.
    + destruct (index_in str_eqb str_eqb_eq p (keys d)
                  (Hk p (or_introl eq_refl))) as [i ->].
      reflexivity.
    + simpl. apply IH. intros q Hq. apply Hk. right. exact Hq.
Qed.



(** The report is the blocks of the archives it reaches, in sorted order,
    and then the notice of the total limit if the loop stopped at it. *)
Lemma report_loop_blocks (d : dict (list MatchRecord)) lim tl cnt paths t n :
  exists visited rest notice,
    paths = visited ++ rest
    /\ printed (report_loop d lim tl cnt paths t n)
       = flat_map (fun p => match get d p with
                            | Some ms => show_jar p ms lim
                            | None => []
                            end) visited
         ++ notice
    /\ (notice = []
        \/ exists k, notice = [OutputLimitReached k; UseTotalLimit]).
Proof.
  revert t n. induction paths as [|p paths IH]; intros t n; simpl.
  - exists [], [], []. repeat split. left. reflexivity.
  - destruct (get d p) as [ms|] eqn:E.
    + destruct (tl <=? n + Z.min (len ms) lim)%Z.
      * destruct (index str_eqb p (keys d)) as [i|]; simpl.
        -- exists [p], paths.
           exists (if (0 <? cnt - (i + 1))%Z
                   then [OutputLimitReached (cnt - (i + 1)); UseTotalLimit]
                   else []).
           simpl. rewrite E, app_nil_r. repeat split.
           destruct (0 <? cnt - (i + 1))%Z; [right; eexists|left]; reflexivity.
        -- exists [p], paths, []. simpl. rewrite E, !app_nil_r.
           repeat split. left. reflexivity.
      * simpl.
        destruct (IH (t + len ms)%Z (n + Z.min (len ms) lim)%Z)
          as [visited [rest [notice [-> [Hp Hn]]]]].
        exists (p :: visited), rest, notice. simpl.
        rewrite E, Hp, app_assoc. repeat split. exact Hn.
    + exists [], (p :: paths), []. repeat split. left. reflexivity.
Qed.

(** The aggregation, as a fold over the archives. *)
Lemma process_jar_list_fold w jar_files st cs bm deep :
  fst (process_jar_list w jar_files st cs bm deep)
  = fold_left
      (fun d p =>
         add_matches d p (fst (scan_jar_file_for_text w p st cs bm deep)))
      jar_files [].
Proof.
  unfold process_jar_list. simpl. generalize (@nil (str * list MatchRecord)).
  induction jar_files as [|p l IH]; intros d; simpl; [reflexivity|].
  apply IH.
Qed.

(** An aggregation of empty results is empty. *)
Lemma process_jar_list_empty w jar_files st cs bm deep :
  (forall p, In p jar_files ->
             fst (scan_jar_file_for_text w p st cs bm deep) = []) ->
  fst (process_jar_list w jar_files st cs bm deep) = [].
Proof.
  intros H. cut (forall d : dict (list MatchRecord),
                   fold_left
                     (fun d p =>
                        add_matches d p
                          (fst (scan_jar_file_for_text w p st cs bm deep)))
                     jar_files d = d).
  { intros C. rewrite process_jar_list_fold. apply C. }
  revert H.
  induction jar_files as [|p l IH]; intros H d; simpl.
  - reflexivity.
  - rewrite (H p (or_introl eq_refl)). simpl. apply IH.
    intros q Hq. apply H. right. exact Hq.
Qed.




(** The keys of the aggregation: those it started with, and the archives
    that gave a record. *)
Lemma aggregate_keys w st cs bm deep jar_files (d : dict (list MatchRecord)) k :
  In k (keys (fold_left
                (fun d p =>
                   add_matches d p
                     (fst (scan_jar_file_for_text w p st cs bm deep)))
                jar_files d))
  <-> In k (keys d)
      \/ (In k jar_files
          /\ fst (scan_jar_file_for_text w k st cs bm deep) <> []).
Proof.
  revert d. induction jar_files as [|p l IH]; intros d; simpl.
  - tauto.
  - rewrite IH. unfold add_matches.
    destruct (fst (scan_jar_file_for_text w p st cs bm deep)) as [|m ms] eqn:E.
    + split; [tauto|]. intros [H | [[-> | H] Hne]]; try tauto; congruence.
    + rewrite keys_set. split.
      * intros [[-> | H] | [H Hne]]; try tauto.
        right. split; [left; reflexivity | congruence].
      * intros [H | [[-> | H] Hne]]; tauto.
Qed.

(** The value at a key of the aggregation is the list of records of that
    archive. *)
Lemma aggregate_get w st cs bm deep jar_files (d : dict (list MatchRecord)) k :
  In k jar_files ->
  fst (scan_jar_file_for_text w k st cs bm deep) <> [] ->
  get (fold_left
         (fun d p =>
            add_matches d p (fst (scan_jar_file_for_text w p st cs bm deep)))
         jar_files d) k
  = Some (fst (scan_jar_file_for_text w k st cs bm deep)).
Proof.
  intros Hin Hne.
  cut (forall d : dict (list MatchRecord),
         get (fold_left
                (fun d p =>
                   add_matches d p
                     (fst (scan_jar_file_for_text w p st cs bm deep)))
                jar_files d) k
         = if existsb (str_eqb k) jar_files
           then Some (fst (scan_jar_file_for_text w k st cs bm deep))
           else get d k).
  { intros C. rewrite C.
    replace (existsb (str_eqb k) jar_files) with true; [reflexivity|].
    symmetry. apply existsb_exists. exists k.
    split; [exact Hin | apply str_eqb_refl]. }
  clear Hin d. induction jar_files as [|p l IH]; intros d; simpl.
  - reflexivity.
  - rewrite IH. destruct (existsb (str_eqb k) l);
      [rewrite orb_true_r; reflexivity|].
    rewrite orb_false_r. unfold add_matches.
    destruct (str_eqb k p) eqn:E.
    + apply str_eqb_eq in E. subst p.
      destruct (fst (scan_jar_file_for_text w k st cs bm deep)) eqn:E';
        [congruence|].
      rewrite get_set, str_eqb_refl. reflexivity.
    + destruct (fst (scan_jar_file_for_text w p st cs bm deep));
        [reflexivity|].
      rewrite get_set, str_eqb_sym, E. reflexivity.
Qed.

Lemma process_jar_files_fst w directory st cs bm deep :
  fst (process_jar_files w directory st cs bm deep)
  = fst (process_jar_list w (find_jar_files w directory) st cs bm deep).
Proof.
  unfold process_jar_files.
  destruct (process_jar_list _ _ _ _ _ _). reflexivity.
Qed.

(** An archive without records leaves the aggregation as it is without
    that archive. *)
Lemma text_aggregate_without w st cs bm deep jar_path jar_files :
  fst (scan_jar_file_for_text w jar_path st cs bm deep) = [] ->
  fst (process_jar_list w jar_files st cs bm deep)
  = fst (process_jar_list w
           (filter (fun p => negb (str_eqb p jar_path)) jar_files)
           st cs bm deep).
Proof.
  intros He. rewrite !process_jar_list_fold.
  generalize (@nil (str * list MatchRecord)).
  induction jar_files as [|p l IH]; intros d; simpl; [reflexivity|].
  destruct (str_eqb p jar_path) eqn:E; simpl.
  - apply str_eqb_eq in E. subst p. rewrite He. simpl. apply IH.
  - apply IH.
Qed.

End JarTextScannerFacts.

(** ** Properties of jar_package_scanner.py *)

Module JarPackageScannerFacts.
Import Py PyVal Os JarPackageScanner PackageSpec PyFacts.

Lemma takewhile_skipn {A} (p : A -> bool) (s : list A) :
  s = takewhile p s ++ skipn (length (takewhile p s)) s.
Proof.
  induction s as [|a s IH]; simpl; [reflexivity|].
  destruct (p a); simpl; [f_equal; exact IH | reflexivity].
Qed.

Lemma takewhile_forallb {A} (p : A -> bool) (s : list A) :
  forallb p (takewhile p s) = true.
Proof.
  induction s as [|a s IH]; simpl; [reflexivity|].
  destruct (p a) eqn:E; simpl; [rewrite E; exact IH | reflexivity].
Qed.

Lemma takewhile_app {A} (p : A -> bool) (l : list A) (c : A) (rest : list A) :
  forallb p l = true -> p c = false -> takewhile p (l ++ c :: rest) = l.
Proof.
  intros Hl Hc. induction l as [|a l IH]; simpl in *.
  - rewrite Hc. reflexivity.
  - apply andb_true_iff in Hl. destruct Hl as [Ha Hl]. rewrite Ha.
    f_equal. apply IH. exact Hl.
Qed.

(** The two classes of the pattern share no character. *)
Lemma package_char_not_space (c : N) :
  is_package_char c = true -> isspace c = false.
Proof.
  intros H. destruct (isspace c) eqn:E; [|reflexivity]. exfalso.
  unfold is_package_char, isspace in *.
  rewrite !orb_true_iff, !andb_true_iff, !N.leb_le, !N.eqb_eq in *. lia.
Qed.

(** The greedy match of the model is the match of the pattern: at a
    position the pattern matches in at most one way. *)
Lemma match_package_at_spec (s name : str) (n : nat) :
  match_package_at s = Some (name, n) <-> package_match_at s name n.
Proof.
  unfold match_package_at, package_match_at. split.
  - destruct (startswith N.eqb s (lit "package")) eqn:Hs; [|discriminate].
    apply (startswith_iff N.eqb N_eqb_eq) in Hs. destruct Hs as [r ->].
    change (skipn 7 (lit "package" ++ r)) with r.
    pose proof (takewhile_skipn isspace r) as Hr.
    pose proof (takewhile_forallb isspace r) as Hsp.
    destruct (takewhile isspace r) as [|c0 spaces0] eqn:Esp; [discriminate|].
    set (spaces := c0 :: spaces0) in *.
    set (r2 := skipn (length spaces) r) in *.
    pose proof (takewhile_skipn is_package_char r2) as Hr2.
    pose proof (takewhile_forallb is_package_char r2) as Hn.
    destruct (takewhile is_package_char r2) as [|c1 name0] eqn:En;
      [discriminate|].
    set (nm := c1 :: name0) in *.
    destruct (skipn (length nm) r2) as [|c rest] eqn:Erest; [discriminate|].
    destruct (c =? 59)%N eqn:Ec; [|discriminate].
    apply N.eqb_eq in Ec. subst c. intros [= <- <-].
    exists spaces, rest. repeat split; try discriminate; try assumption.
    rewrite Hr at 1. rewrite Hr2 at 1. reflexivity.
  - intros [spaces [rest [-> [Hne [Hsp [Hnn [Hn ->]]]]]]].
    replace (startswith N.eqb (lit "package" ++ spaces ++ name ++ 59%N :: rest)
                        (lit "package")) with true
      by (symmetry; apply (startswith_iff N.eqb N_eqb_eq); eexists;
          reflexivity).
    change (skipn 7 (lit "package" ++ ?r)) with r.
    assert (Hc : exists c1 name0, name = c1 :: name0)
      by (destruct name as [|c1 name0]; [congruence | eauto]).
    destruct Hc as [c1 [name0 Ec]].
    assert (F1 : takewhile isspace (spaces ++ name ++ 59%N :: rest) = spaces).
    { rewrite Ec. apply takewhile_app; [exact Hsp|].
      apply package_char_not_space. rewrite Ec in Hn. simpl in Hn.
      apply andb_true_iff in Hn. tauto. }
    assert (F2 : skipn (length spaces) (spaces ++ name ++ 59%N :: rest)
                 = name ++ 59%N :: rest).
    { rewrite skipn_app, skipn_all, Nat.sub_diag. reflexivity. }
    assert (F3 : takewhile is_package_char (name ++ 59%N :: rest) = name).
    { apply takewhile_app; [exact Hn | reflexivity]. }
    assert (F4 : skipn (length name) (name ++ 59%N :: rest) = 59%N :: rest).
    { rewrite skipn_app, skipn_all, Nat.sub_diag. reflexivity. }
    rewrite F1, F2, F3, F4.
    destruct spaces; [congruence|]. destruct name; [congruence|].
    reflexivity.
Qed.

(** The test [name not in results] compares a [str] with tuples, so it
    always succeeds. *)
Lemma in_results_false name results : in_results name results = false.
Proof.
  unfold in_results, list_in. induction results as [|r l IH]; simpl.
  - reflexivity.
  - exact IH.
Qed.

(** C1 at inputs where the code departs from it: an archive with two
    classes of the package [com.acme], and one with two source files that
    declare it, each give the pair of the package and the archive twice. *)
Theorem scan_jar_file_repeats_package :
  let pair := (lit "com.acme", lit "lib.jar") in
  fst (scan_jar_file
         (Examples.world_with [] (Node [] []) (lit "lib.jar")
                              Examples.two_classes)
         (lit "lib.jar")) = [pair; pair]
  /\ fst (scan_jar_file
            (Examples.world_with [] (Node [] []) (lit "lib.jar")
                                 Examples.two_sources)
            (lit "lib.jar")) = [pair; pair]
  /\ ~ NoDup [pair; pair].
Proof.
  split; [reflexivity|]. split; [reflexivity|].
  intros H. inversion H as [|x l Hx _]. apply Hx. left. reflexivity.
Qed.

(** The aggregation does what the scan misses: no package lists an
    archive twice. *)
Lemma add_package_nodup (d : dict (list str)) r :
  (forall k jars, get d k = Some jars -> NoDup jars) ->
  forall k jars, get (add_package d r) k = Some jars -> NoDup jars.
Proof.
  intros Hd k jars. destruct r as [package_name jar_path]. simpl.
  destruct (get d package_name) as [old|] eqn:E.
  - destruct (list_in str_eqb jar_path old) eqn:Hin; simpl; [apply Hd|].
    rewrite get_set. destruct (str_eqb package_name k); [|apply Hd].
    intros [= <-]. apply NoDup_app; repeat split.
    + apply (Hd _ _ E).
    + constructor; [intros []|constructor].
    + intros x Hx [<- | []].
      apply (list_in_iff str_eqb str_eqb_eq) in Hx. congruence.
  - rewrite get_set. destruct (str_eqb package_name k); [|apply Hd].
    intros [= <-]. constructor; [intros []|constructor].
Qed.

Lemma process_jar_list_nodup w jar_files k jars :
  get (fst (process_jar_list w jar_files)) k = Some jars -> NoDup jars.
Proof.
  unfold process_jar_list. simpl.
  cut (forall (rs : list (list PackageRecord)) (d : dict (list str)),
         (forall k jars, get d k = Some jars -> NoDup jars) ->
         forall k jars,
           get (fold_left
                  (fun d jar_results => fold_left add_package jar_results d)
                  rs d) k = Some jars -> NoDup jars).
  { intros C. apply C. intros k' jars' [=]. }
  induction rs as [|r rs IH]; intros d Hd; simpl; [exact Hd|].
  apply IH. clear IH. revert d Hd.
  induction r as [|x r IH]; intros d Hd; simpl; [exact Hd|].
  apply IH. apply add_package_nodup. exact Hd.
Qed.

(** An archive that does not open gives no record. *)
Lemma package_scan_raises w jar_path e :
  zip_at w jar_path = ZipRaises e -> fst (scan_jar_file w jar_path) = [].
Proof.
  intros H. unfold scan_jar_file. rewrite H. reflexivity.
Qed.

(** An archive without records leaves the aggregation as it is without
    that archive. *)
Lemma package_aggregate_without w jar_path jar_files :
  fst (scan_jar_file w jar_path) = [] ->
  fst (process_jar_list w jar_files)
  = fst (process_jar_list w
           (filter (fun p => negb (str_eqb p jar_path)) jar_files)).
Proof.
  intros He. unfold process_jar_list. simpl.
  generalize (@nil (str * list str)).
  induction jar_files as [|p l IH]; intros d; simpl; [reflexivity|].
  destruct (str_eqb p jar_path) eqn:E; simpl.
  - apply str_eqb_eq in E. subst p. rewrite He. simpl. apply IH.
  - apply IH.
Qed.

(** A pair of a scanned archive is in the aggregation, whatever the other
    archives of the batch give. *)
Lemma add_package_keeps (d : dict (list str)) r k j :
  (exists jars, get d k = Some jars /\ In j jars) ->
  exists jars, get (add_package d r) k = Some jars /\ In j jars.
Proof.
  intros [jars [Hg Hj]]. destruct r as [package_name jar_path]. simpl.
  destruct (get d package_name) as [old|] eqn:E.
  - destruct (list_in str_eqb jar_path old); simpl; [exists jars; tauto|].
    rewrite get_set. destruct (str_eqb package_name k) eqn:Ek.
    + apply str_eqb_eq in Ek. subst k. exists (old ++ [jar_path]).
      split; [reflexivity|]. apply in_or_app. left. congruence.
    + exists jars. tauto.
  - rewrite get_set. destruct (str_eqb package_name k) eqn:Ek.
    + apply str_eqb_eq in Ek. subst k. congruence.
    + exists jars. tauto.
Qed.

Lemma add_package_adds (d : dict (list str)) k j :
  exists jars, get (add_package d (k, j)) k = Some jars /\ In j jars.
Proof.
  simpl. destruct (get d k) as [old|] eqn:E.
  - destruct (list_in str_eqb j old) eqn:Hin; simpl.
    + exists old. split; [exact E|].
      apply (list_in_iff str_eqb str_eqb_eq). exact Hin.
    + rewrite get_set, str_eqb_refl. exists (old ++ [j]).
      split; [reflexivity|]. apply in_or_app. right. left. reflexivity.
  - rewrite get_set, str_eqb_refl. exists [j].
    split; [reflexivity | left; reflexivity].
Qed.

Lemma fold_add_package_keeps rs (d : dict (list str)) k j :
  (exists jars, get d k = Some jars /\ In j jars) ->
  exists jars, get (fold_left add_package rs d) k = Some jars /\ In j jars.
Proof.
  revert d. induction rs as [|r rs IH]; intros d H; simpl; [exact H|].
  apply IH. apply add_package_keeps. exact H.
Qed.

Lemma fold_add_package_adds rs (d : dict (list str)) k j :
  In (k, j) rs ->
  exists jars, get (fold_left add_package rs d) k = Some jars /\ In j jars.
Proof.
  revert d. induction rs as [|r rs IH]; intros d; simpl; [intros []|].
  intros [-> | H].
  - apply fold_add_package_keeps. apply add_package_adds.
  - apply IH. exact H.
Qed.

Lemma process_jar_list_reports w jar_files p package_name jar_path :
  In p jar_files ->
  In (package_name, jar_path) (fst (scan_jar_file w p)) ->
  exists jars,
    get (fst (process_jar_list w jar_files)) package_name = Some jars
    /\ In jar_path jars.
Proof.
  intros Hp Hr. unfold process_jar_list. simpl.
  generalize (@nil (str * list str)). revert Hp.
  induction jar_files as [|q l IH]; intros Hp d; simpl; [destruct Hp|].
  destruct Hp as [-> | Hp].
  - generalize (fold_add_package_adds _ d _ _ Hr).
    generalize (fold_left add_package (fst (scan_jar_file w p)) d).
    clear IH. induction l as [|q l IH]; intros d' H; simpl; [exact H|].
    apply IH. apply fold_add_package_keeps. exact H.
  - apply IH. exact Hp.
Qed.

End JarPackageScannerFacts.

(** ** Properties of java_text_searcher.py *)

Module JavaTextSearcherFacts.
Import Py Os JavaTextSearcher JavaSpec PyFacts.

(** The keys after the loop over the gathered results: those the object
    held, and the files with a match. *)
Lemma add_result_keys gathered (d : dict (list (Z * str))) k :
  In k (keys (fold_left add_result gathered d))
  <-> In k (keys d) \/ exists ms, In (k, ms) gathered /\ ms <> [].
Proof.
  revert d. induction gathered as [|[p ms] l IH]; intros d; simpl.
  - split; [tauto | intros [H | [ms [[] _]]]; exact H].
  - rewrite IH. destruct ms as [|m ms]; simpl.
    + split.
      * intros [H | [ms' [H Hne]]]; [tauto | right; exists ms'; tauto].
      * intros [H | [ms' [[[= -> <-] | H] Hne]]];
          [tauto | congruence | right; exists ms'; tauto].
    + rewrite keys_set. split.
      * intros [[-> | H] | [ms' [H Hne]]]; [|tauto|].
        -- right. exists (m :: ms). split; [left; reflexivity | discriminate].
        -- right. exists ms'. tauto.
      * intros [H | [ms' [[[= -> <-] | H] Hne]]]; [tauto | tauto |].
        right. exists ms'. tauto.
Qed.

Lemma search_all_files_keys w self k :
  results self = [] ->
  In k (keys (fst (fst (search_all_files w self))))
  <-> In k (files_to_search w self) /\ _search_file_sync w self k <> [].
Proof.
  intros Hr. unfold search_all_files, files_to_search.
  assert (H : forall self' files,
            results self' = [] ->
            (forall p, _search_file_sync w self' p = _search_file_sync w self p) ->
            In k (keys (fold_left add_result
                                  (map (search_file w self') files)
                                  (results self')))
            <-> In k files /\ _search_file_sync w self k <> []).
  { intros self' files Hr' Hs. rewrite add_result_keys, Hr'. simpl. split.
    - intros [[] | [ms [Hin Hne]]]. apply in_map_iff in Hin.
      destruct Hin as [p [[= -> <-] Hp]]. rewrite <- Hs. tauto.
    - intros [Hin Hne]. right. exists (_search_file_sync w self' k).
      split; [|rewrite Hs; exact Hne].
      apply in_map_iff. exists k. split; [reflexivity | exact Hin]. }
  destruct (java_files self) as [|f files] eqn:Ej; simpl.
  - destruct (_find_java_files_sync w self) as [|f files] eqn:Ef; simpl.
    + tauto.
    + apply (H (with_java_files self (f :: files)) (f :: files) Hr).
      intros p. reflexivity.
  - rewrite Ej. simpl. apply (H self (f :: files) Hr). intros p. reflexivity.
Qed.

End JavaTextSearcherFacts.

(** ** Properties of the enumerators *)

Module EnumeratorFacts.
Import Py Os Spec PyFacts.

(** Induction on a directory, with the property for its subdirectories. *)
Lemma tree_induction (P : tree -> Prop) :
  (forall files dirs,
     (forall d sub, In (d, sub) dirs -> P sub) -> P (Node files dirs)) ->
  forall t, P t.
Proof.
  intros H. fix IH 1. intros [files dirs]. apply H.
  induction dirs as [|[d0 s0] ds IHds]; intros d sub Hin.
  - destruct Hin.
  - destruct Hin as [E | Hin].
    + injection E as _ <-. apply IH.
    + apply (IHds _ _ Hin).
Qed.

(** The triples of the walk are the directories of the tree. *)
Lemma walk_tree_file t :
  forall top root f,
    (exists ds files, In (root, ds, files) (walk top t) /\ In f files)
    <-> tree_file top t root f.
Proof.
  induction t as [files dirs IH] using tree_induction.
  intros top root f. simpl. split.
  - intros [ds [fs [[E | Hin] Hf]]].
    + injection E as <- _ <-. apply file_here. exact Hf.
    + apply in_flat_map in Hin. destruct Hin as [[d sub] [Hd Hin]].
      apply (file_below _ _ _ d sub); [exact Hd|].
      apply (IH d sub Hd). exists ds, fs. split; [exact Hin | exact Hf].
  - intros H. inversion H as [? ? ? ? Hf | ? ? ? d sub ? ? Hd Hsub]; subst.
    + exists (map fst dirs), files. split; [left; reflexivity | exact Hf].
    + apply (IH d sub Hd) in Hsub. destruct Hsub as [ds [fs [Hin Hf]]].
      exists ds, fs. split; [|exact Hf]. right.
      apply in_flat_map. exists (d, sub). split; [exact Hd | exact Hin].
Qed.

Lemma enumerate_by_spec keep (good : str -> Prop) w top :
  (forall f, keep f = true <-> good f) ->
  enumerates w top good (enumerate_by keep w top).
Proof.
  intros Hk p. unfold enumerate_by, os_walk. split.
  - intros H. apply in_flat_map in H. destruct H as [[[root ds] files] [Hw H]].
    apply in_flat_map in H. destruct H as [f [Hf H]].
    destruct (keep f) eqn:E; [|destruct H]. destruct H as [<- | []].
    destruct (tree_at w top) as [t|]; [|destruct Hw].
    exists t, root, f. split; [reflexivity|]. split.
    + apply walk_tree_file. exists ds, files. split; assumption.
    + split; [apply Hk; exact E | reflexivity].
  - intros [t [root [f [Ht [Hf [Hg ->]]]]]]. rewrite Ht.
    apply walk_tree_file in Hf. destruct Hf as [ds [files [Hw Hf]]].
    apply in_flat_map. exists (root, ds, files). split; [exact Hw|].
    apply in_flat_map. exists f. split; [exact Hf|].
    rewrite (proj2 (Hk f) Hg). left. reflexivity.
Qed.

(** Comparison without regard to case is comparison of the lowered
    strings. *)
Lemma lower_eq_same_letters (tail suffix : str) :
  lower tail = lower suffix <-> Forall2 same_letter tail suffix.
Proof.
  unfold lower. revert suffix.
  induction tail as [|a tail IH]; intros [|b suffix]; simpl.
  - split; [constructor | reflexivity].
  - split; [discriminate | intros H; inversion H].
  - split; [discriminate | intros H; inversion H].
  - split.
    + intros [= Hab Ht]. constructor; [exact Hab | apply IH; exact Ht].
    + intros H. inversion H as [|? ? ? ? Hab Ht]; subst.
      apply IH in Ht. unfold same_letter in Hab. congruence.
Qed.

Lemma endswith_lower_ci (f suffix : str) :
  lower suffix = suffix ->
  endswith N.eqb (lower f) suffix = true <-> ends_with_ci f suffix.
Proof.
  intros Hs. rewrite (endswith_iff N.eqb N_eqb_eq). unfold ends_with_ci. split.
  - intros [pre H]. unfold lower in H. apply map_eq_app in H.
    destruct H as [l1 [l2 [-> [_ H2]]]]. exists l1, l2.
    split; [reflexivity|]. apply lower_eq_same_letters.
    rewrite Hs. exact H2.
  - intros [pre [tail [-> H]]]. apply lower_eq_same_letters in H.
    exists (lower pre). unfold lower in *. rewrite map_app, H, Hs.
    reflexivity.
Qed.

End EnumeratorFacts.

(** ** Properties across the scripts *)

Module ScanProperties.
Import Py Os Spec PyFacts EnumeratorFacts.

(** C8, as the claim states it, fails for the enumerator of source files:
    [Main.Java] under [/lib/sub] ends with [.java] when case is disregarded,
    and is not enumerated. *)
Lemma java_enumerator_is_case_sensitive :
  ~ enumerates Examples.lib_world (lit "/lib")
      (fun f => ends_with_ci f (lit ".java"))
      (JavaTextSearcher._find_java_files_sync Examples.lib_world
         (JavaTextSearcher.init (lit "TODO") (lit "/lib") false)).
Proof.
  intros H.
  assert (Hin : In (lit "/lib/sub/Main.Java")
                   (JavaTextSearcher._find_java_files_sync Examples.lib_world
                      (JavaTextSearcher.init (lit "TODO") (lit "/lib") false))).
  { apply H. exists Examples.lib_dir, (lit "/lib/sub"), (lit "Main.Java").
    split; [reflexivity|]. split.
    - apply (file_below _ _ _ (lit "sub")
               (Node [lit "b.jar"; lit "Main.Java"; lit "Util.java"] []));
        [left; reflexivity|].
      apply (file_here (lit "/lib/sub")). right. left. reflexivity.
    - split; [|reflexivity].
      exists (lit "Main"), (lit ".Java"). split; [reflexivity|].
      repeat constructor. }
  destruct Hin as [E | []]. discriminate E.
Qed.

(** C8, amended.  The enumerators of archives yield exactly the files of
    the tree, nested directories included, whose names end with [.jar] when
    case is disregarded; the enumerator of source files yields exactly those
    whose names end with [.java], letter for letter. *)
Theorem enumerators_by_suffix w :
  (forall directory,
     enumerates w directory (fun f => ends_with_ci f (lit ".jar"))
                (JarPackageScanner.find_jar_files w directory))
  /\ (forall directory,
        enumerates w directory (fun f => ends_with_ci f (lit ".jar"))
                   (JarTextScanner.find_jar_files w directory))
  /\ (forall self,
        enumerates w (JavaTextSearcher.root_dir self)
                   (fun f => ends_with f (lit ".java"))
                   (JavaTextSearcher._find_java_files_sync w self)).
Proof.
  split; [|split].
  - intros directory.
    apply (enumerate_by_spec
             (fun file => endswith N.eqb (lower file) (lit ".jar"))).
    intros f. apply endswith_lower_ci. reflexivity.
  - intros directory.
    apply (enumerate_by_spec
             (fun file => endswith N.eqb (lower file) (lit ".jar"))).
    intros f. apply endswith_lower_ci. reflexivity.
  - intros self.
    apply (enumerate_by_spec (fun file => endswith N.eqb file (lit ".java"))).
    intros f. apply (endswith_iff N.eqb N_eqb_eq).
Qed.

(** C4.  An archive that cannot be opened gives no record, in the text
    scan and in the package scan: the scan returns the empty list and prints
    the error.  The result of a batch that holds it is the result of the
    batch without it, and every other archive of the batch is in the result
    with what its own scan gave. *)
Theorem unreadable_archive_is_isolated w jar_path e :
  zip_at w jar_path = ZipRaises e ->
  (forall st cs bm deep,
     let scan p :=
       fst (JarTextScanner.scan_jar_file_for_text w p st cs bm deep) in
     let batch jar_files :=
       fst (JarTextScanner.process_jar_list w jar_files st cs bm deep) in
     JarTextScanner.scan_jar_file_for_text w jar_path st cs bm deep
     = ([], [JarTextScanner.ErrorProcessing jar_path e])
     /\ forall jar_files,
          batch jar_files
          = batch (filter (fun p => negb (str_eqb p jar_path)) jar_files)
          /\ forall p, In p jar_files -> scan p <> [] ->
                       get (batch jar_files) p = Some (scan p))
  /\ JarPackageScanner.scan_jar_file w jar_path
     = ([], [JarPackageScanner.ErrorProcessing jar_path e])
  /\ (forall jar_files,
        let batch jar_files :=
          fst (JarPackageScanner.process_jar_list w jar_files) in
        batch jar_files
        = batch (filter (fun p => negb (str_eqb p jar_path)) jar_files)
        /\ forall p package_name source,
             In p jar_files ->
             In (package_name, source)
                (fst (JarPackageScanner.scan_jar_file w p)) ->
             exists jars,
               get (batch jar_files) package_name = Some jars
               /\ In source jars).
Proof.
  intros H. split; [|split].
  - intros st cs bm deep scan batch.
    pose proof (JarTextScannerFacts.text_scan_raises w jar_path e st cs bm
                  deep H) as He.
    split.
    { unfold JarTextScanner.scan_jar_file_for_text. rewrite H. reflexivity. }
    intros jar_files. split.
    + apply JarTextScannerFacts.text_aggregate_without. exact He.
    + intros p Hp Hne. unfold batch.
      rewrite JarTextScannerFacts.process_jar_list_fold.
      apply JarTextScannerFacts.aggregate_get; assumption.
  - unfold JarPackageScanner.scan_jar_file. rewrite H. reflexivity.
  - intros jar_files batch. split.
    + apply JarPackageScannerFacts.package_aggregate_without.
      apply (JarPackageScannerFacts.package_scan_raises w jar_path e H).
    + intros p package_name source Hp Hr.
      apply (JarPackageScannerFacts.process_jar_list_reports w jar_files p);
        assumption.
Qed.

Lemma unreadable_archive_is_isolated_witness :
  let batch jar_files :=
    fst (JarTextScanner.process_jar_list Examples.lib_world jar_files
           (lit "TODO") true false false) in
  batch [lit "/lib/a.JAR"; lit "/lib/sub/b.jar"] = batch [lit "/lib/a.JAR"]
  /\ length (fst (JarTextScanner.scan_jar_file_for_text Examples.lib_world
                    (lit "/lib/a.JAR") (lit "TODO") true false false))
     = 6%nat.
Proof.
  split; [|reflexivity].
  apply (proj1 (proj2 (proj1 (unreadable_archive_is_isolated
                                Examples.lib_world (lit "/lib/sub/b.jar")
                                BadZipFile eq_refl)
                             (lit "TODO") true false false)
                      [lit "/lib/a.JAR"; lit "/lib/sub/b.jar"])).
Defined.

(** C9.  The keys of the result of a scan are exactly the sources with at
    least one record, each with its records: for the archives under a
    directory, and for the source files of a searcher that holds no result
    yet. *)
Theorem scan_result_keys w :
  (forall directory st cs bm deep k,
     let scan p :=
       fst (JarTextScanner.scan_jar_file_for_text w p st cs bm deep) in
     let d := fst (JarTextScanner.process_jar_files w directory st cs bm deep)
     in
     (In k (keys d)
      <-> In k (JarTextScanner.find_jar_files w directory) /\ scan k <> [])
     /\ (In k (keys d) -> get d k = Some (scan k)))
  /\ (forall self k,
        JavaTextSearcher.results self = [] ->
        In k (keys (fst (fst (JavaTextSearcher.search_all_files w self))))
        <-> In k (JavaSpec.files_to_search w self)
            /\ JavaTextSearcher._search_file_sync w self k <> []).
Proof.
  split.
  - intros directory st cs bm deep k scan d.
    assert (Hk : In k (keys d)
                 <-> In k (JarTextScanner.find_jar_files w directory)
                     /\ scan k <> []).
    { unfold d. rewrite JarTextScannerFacts.process_jar_files_fst,
        JarTextScannerFacts.process_jar_list_fold,
        JarTextScannerFacts.aggregate_keys. simpl. tauto. }
    split; [exact Hk|]. intros Hin. apply Hk in Hin. destruct Hin as [Hin Hne].
    unfold d. rewrite JarTextScannerFacts.process_jar_files_fst,
      JarTextScannerFacts.process_jar_list_fold.
    apply JarTextScannerFacts.aggregate_get; assumption.
  - intros self k Hr. apply JavaTextSearcherFacts.search_all_files_keys.
    exact Hr.
Qed.

Lemma scan_result_keys_witness :
  keys (fst (fst (JavaTextSearcher.search_all_files Examples.lib_world
                    (JavaTextSearcher.init (lit "TODO") (lit "/lib") false))))
  = []
  /\ (In (lit "/lib/sub/Util.java")
         (keys (fst (fst (JavaTextSearcher.search_all_files Examples.lib_world
                            (JavaTextSearcher.init (lit "TODO") (lit "/lib")
                                                   false)))))
      <-> In (lit "/lib/sub/Util.java")
             (JavaSpec.files_to_search Examples.lib_world
                (JavaTextSearcher.init (lit "TODO") (lit "/lib") false))
          /\ JavaTextSearcher._search_file_sync Examples.lib_world
               (JavaTextSearcher.init (lit "TODO") (lit "/lib") false)
               (lit "/lib/sub/Util.java") <> []).
Proof.
  split; [reflexivity|].
  apply (proj2 (scan_result_keys Examples.lib_world)
               (JavaTextSearcher.init (lit "TODO") (lit "/lib") false)
               (lit "/lib/sub/Util.java") eq_refl).
Defined.

End ScanProperties.

(** ** Further properties of the scan in jar_text_scanner.py *)

Module TextScanMore.
Import Py Os JarTextScanner TextSpec MoreSpec PyFacts JarTextScannerFacts.

Lemma enumerate_nth {A} (l : list A) (start n : Z) (x : A) :
  In (n, x) (enumerate start l)
  <-> exists i, nth_error l i = Some x /\ n = (start + Z.of_nat i)%Z.
Proof.
  revert start. induction l as [|a l IH]; intros start; simpl.
  - split; [intros [] | intros [[|i] [H _]]; discriminate].
  - rewrite IH. split.
    + intros [[= <- <-] | [i [Hi ->]]].
      * exists 0%nat. split; [reflexivity | simpl; lia].
      * exists (S i). split; [exact Hi | lia].
    + intros [[|i] [Hi ->]]; simpl in Hi.
      * left. injection Hi as <-. f_equal. simpl. lia.
      * right. exists i. split; [exact Hi | lia].
Qed.

(** The records of the text of one entry. *)
Lemma text_matches_in file_name jar_path st cs content r :
  In r (text_matches file_name jar_path st cs content)
  <-> exists i line,
        nth_error (splitlines content) i = Some line
        /\ hit cs st line = true
        /\ r = {| entry_name := file_name; source := jar_path;
                  line_number := Z.of_nat i + 1; snippet := strip line |}.
Proof.
  unfold text_matches. rewrite in_flat_map. split.
  - intros [[n line] [Hin Hr]]. apply enumerate_nth in Hin.
    destruct Hin as [i [Hi ->]]. fold (hit cs st line) in Hr.
    destruct (hit cs st line) eqn:Hh; [|destruct Hr].
    destruct Hr as [<- | []]. exists i, line.
    split; [exact Hi|]. split; [exact Hh|]. f_equal. lia.
  - intros [i [line [Hi [Hh ->]]]]. exists (1 + Z.of_nat i, line)%Z. split.
    + apply enumerate_nth. exists i. split; [exact Hi | reflexivity].
    + fold (hit cs st line). rewrite Hh. left. f_equal. lia.
Qed.




Lemma flat_map_length_le {A B} (f : A -> list B) (l : list A) :
  (forall a, (length (f a) <= 1)%nat) ->
  (length (flat_map f l) <= length l)%nat.
Proof.
  intros H. induction l as [|a l IH]; simpl; [lia|].
  rewrite length_app. specialize (H a). lia.
Qed.

(** X3.  Every record names the archive that was scanned and an entry of
    its listing.  In binary mode its line number is zero and there is at most
    one record for each name of the listing; in text mode its line number is
    one or more. *)
Theorem records_of_a_scan w jar_path jar st cs bm deep :
  zip_at w jar_path = ZipOpened jar ->
  let results := fst (scan_jar_file_for_text w jar_path st cs bm deep) in
  (forall r,
     In r results ->
     source r = jar_path /\ In (entry_name r) (namelist jar)
     /\ if bm then line_number r = 0%Z else (1 <= line_number r)%Z)
  /\ (bm = true -> (length results <= length (namelist jar))%nat).
Proof.
  intros Hz results. unfold results.
  rewrite (scan_opened _ _ _ _ _ _ _ Hz). split.
  - intros r Hr. destruct bm.
    + destruct (encode_utf8 st) as [sb|]; [|destruct Hr].
      apply in_flat_map in Hr. destruct Hr as [file_name [Hin Hr]].
      unfold scan_entry in Hr. simpl in Hr.
      destruct (read jar file_name) as [content|]; [|destruct Hr].
      destruct (contains Byte.eqb sb content); [|destruct Hr].
      destruct Hr as [<- | []]. repeat split. exact Hin.
    + apply in_flat_map in Hr. destruct Hr as [file_name [Hin Hr]].
      unfold scan_entry in Hr.
      destruct (is_target_file false file_name); [|destruct Hr].
      destruct (read jar file_name) as [content|]; [|destruct Hr].
      apply text_matches_in in Hr. destruct Hr as [i [line [_ [_ ->]]]].
      simpl. repeat split; [exact Hin | lia].
  - intros ->. destruct (encode_utf8 st) as [sb|]; [|simpl; lia].
    apply flat_map_length_le. intros file_name. unfold scan_entry. simpl.
    destruct (read jar file_name) as [content|]; [|simpl; lia].
    destruct (contains Byte.eqb sb content); simpl; lia.
Qed.

Lemma records_of_a_scan_witness :
  let results :=
    fst (scan_jar_file_for_text Examples.lib_world (lit "/lib/a.JAR")
           (lit "TODO") true true false) in
  length results = 2%nat
  /\ (forall r, In r results ->
                source r = lit "/lib/a.JAR"
                /\ In (entry_name r) (namelist Examples.notes_jar)
                /\ line_number r = 0%Z)
  /\ (length results <= length (namelist Examples.notes_jar))%nat.
Proof.
  pose proof (records_of_a_scan Examples.lib_world (lit "/lib/a.JAR")
                Examples.notes_jar (lit "TODO") true true false eq_refl)
    as [H1 H2].
  split; [reflexivity|]. split; [exact H1 | exact (H2 eq_refl)].
Defined.

(** X4.  A search string that has no UTF-8 encoding (it holds a
    surrogate) finds nothing in binary mode: the scan of an archive gives no
    record, prints the error for an archive that opened, and the result for a
    directory is empty. *)
Theorem unencodable_search_text w st cs deep :
  encode_utf8 st = None ->
  (forall jar_path,
     fst (scan_jar_file_for_text w jar_path st cs true deep) = []
     /\ forall jar,
          zip_at w jar_path = ZipOpened jar ->
          snd (scan_jar_file_for_text w jar_path st cs true deep)
          = [ErrorProcessing jar_path UnicodeEncodeError])
  /\ (forall directory,
        fst (process_jar_files w directory st cs true deep) = []).
Proof.
  intros He.
  assert (Hs : forall jar_path,
            fst (scan_jar_file_for_text w jar_path st cs true deep) = []).
  { intros jar_path. unfold scan_jar_file_for_text.
    destruct (zip_at w jar_path); [reflexivity|]. rewrite He. reflexivity. }
  split.
  - intros jar_path. split; [apply Hs|]. intros jar Hz.
    unfold scan_jar_file_for_text. rewrite Hz, He. reflexivity.
  - intros directory. rewrite process_jar_files_fst.
    apply process_jar_list_empty. intros p _. apply Hs.
Qed.

Lemma unencodable_search_text_witness :
  fst (scan_jar_file_for_text Examples.lib_world (lit "/lib/a.JAR")
         [55357%N] true true false) = []
  /\ snd (scan_jar_file_for_text Examples.lib_world (lit "/lib/a.JAR")
            [55357%N] true true false)
     = [ErrorProcessing (lit "/lib/a.JAR") UnicodeEncodeError]
  /\ fst (process_jar_files Examples.lib_world (lit "/lib") [55357%N] true
            true false) = [].
Proof.
  pose proof (unencodable_search_text Examples.lib_world [55357%N] true false
                eq_refl) as [H1 H2].
  destruct (H1 (lit "/lib/a.JAR")) as [Ha Hb].
  split; [exact Ha|]. split; [exact (Hb Examples.notes_jar eq_refl)|].
  apply H2.
Defined.

Lemma set_new {V} (d : dict V) k v :
  ~ In k (keys d) -> set d k v = d ++ [(k, v)].
Proof.
  unfold keys. induction d as [|[k' v'] d IH]; simpl; intros H.
  - reflexivity.
  - destruct (str_eqb k' k) eqn:E.
    + apply str_eqb_eq in E. subst. tauto.
    + f_equal. apply IH. tauto.
Qed.

(** X5.  When no archive is enumerated twice, the result for a batch holds
    the archives with a record in the order of their enumeration, each with
    the records of its scan in the order of the scan. *)
Theorem batch_result_in_order w jar_files st cs bm deep :
  NoDup jar_files ->
  let scan p := fst (scan_jar_file_for_text w p st cs bm deep) in
  fst (process_jar_list w jar_files st cs bm deep)
  = map (fun p => (p, scan p)) (filter (fun p => has_records (scan p)) jar_files).
Proof.
  intros Hnd scan. rewrite process_jar_list_fold. fold scan.
  cut (forall d : dict (list MatchRecord),
         (forall p, In p jar_files -> ~ In p (keys d)) ->
         fold_left (fun d p => add_matches d p (scan p)) jar_files d
         = d ++ map (fun p => (p, scan p))
                    (filter (fun p => has_records (scan p)) jar_files)).
  { intros C. apply (C []). intros p _ []. }
  induction Hnd as [|p l Hp Hnd IH]; intros d Hd; simpl.
  - rewrite app_nil_r. reflexivity.
  - unfold add_matches at 2. destruct (scan p) as [|m ms] eqn:E; simpl.
    + apply IH. intros q Hq. apply Hd. right. exact Hq.
    + rewrite IH.
      * rewrite set_new by (apply Hd; left; reflexivity).
        rewrite <- app_assoc, ?E. reflexivity.
      * intros q Hq Hin. apply keys_set in Hin. destruct Hin as [-> | Hin].
        -- contradiction.
        -- apply (Hd q); [right; exact Hq | exact Hin].
Qed.

Lemma batch_result_in_order_witness :
  map fst (fst (process_jar_list Examples.lib_world
                  [lit "/lib/sub/b.jar"; lit "/lib/a.JAR"] (lit "TODO") true
                  false false))
  = [lit "/lib/a.JAR"].
Proof.
  rewrite (batch_result_in_order Examples.lib_world
             [lit "/lib/sub/b.jar"; lit "/lib/a.JAR"] (lit "TODO") true false
             false).
  - reflexivity.
  - repeat constructor; simpl; intuition discriminate.
Defined.

End TextScanMore.

(** ** Further properties of the binary search in jar_text_scanner.py *)

Module BinaryScanMore.
Import Py Os JarTextScanner TextSpec MoreSpec PyFacts.

(** [find] gives the first place where the needle starts. *)
Lemma find_from_first {A} (eqb : A -> A -> bool)
    (eqb_eq : forall a b, eqb a b = true <-> a = b) (s needle : list A) :
  forall i,
    contains eqb needle s = true ->
    exists pre post,
      s = pre ++ needle ++ post
      /\ find_from eqb i s needle = (i + Z.of_nat (length pre))%Z
      /\ forall pre' post',
           s = pre' ++ needle ++ post' -> (length pre <= length pre')%nat.
Proof.
  induction s as [|a s IH]; intros i Hc; simpl in *.
  - rewrite orb_false_r in Hc. rewrite Hc.
    apply (startswith_iff eqb eqb_eq) in Hc. destruct Hc as [r Hr].
    exists [], r. split; [exact Hr|]. split; [simpl; lia|].
    intros; simpl; lia.
  - destruct (startswith eqb (a :: s) needle) eqn:Hs.
    + apply (startswith_iff eqb eqb_eq) in Hs. destruct Hs as [r Hr].
      exists [], r. split; [exact Hr|]. split; [simpl; lia|].
      intros; simpl; lia.
    + simpl in Hc. destruct (IH (i + 1)%Z Hc) as [pre [post [-> [Hf Hmin]]]].
      exists (a :: pre), post. split; [reflexivity|].
      split; [rewrite Hf; simpl length; lia|].
      intros [|a' pre'] post' E.
      * exfalso. assert (startswith eqb (a :: pre ++ needle ++ post) needle
                         = true)
          by (apply (startswith_iff eqb eqb_eq); exists post'; exact E).
        congruence.
      * injection E as _ E. specialize (Hmin pre' post' E). simpl. lia.
Qed.

(** The slice of the context around a match. *)
Lemma context_slice {A} (pre needle post : list A) :
  let content := pre ++ needle ++ post in
  let pos := Z.of_nat (length pre) in
  slice content (Z.max 0 (pos - 20))
        (Z.min (len content) (pos + len needle + 20))
  = skipn (length pre - 20) pre ++ needle ++ firstn 20 post.
Proof.
  intros content pos. unfold slice, clamp_index, len, content, pos.
  rewrite !length_app.
  set (p := length pre). set (n := length needle). set (q := length post).
  replace (Z.max 0 (Z.of_nat p - 20) <? 0)%Z with false
    by (symmetry; apply Z.ltb_ge; lia).
  replace (Z.min (Z.of_nat (p + (n + q))) (Z.of_nat p + Z.of_nat n + 20) <? 0)%Z
    with false by (symmetry; apply Z.ltb_ge; lia).
  replace (Z.to_nat (Z.min (Z.max 0 (Z.of_nat p - 20)) (Z.of_nat (p + (n + q)))))
    with (p - 20)%nat by lia.
  replace (Z.to_nat
             (Z.min (Z.min (Z.of_nat (p + (n + q)))
                           (Z.of_nat p + Z.of_nat n + 20))
                    (Z.of_nat (p + (n + q)))
              - Z.min (Z.max 0 (Z.of_nat p - 20)) (Z.of_nat (p + (n + q)))))
    with ((p - (p - 20)) + (n + Nat.min 20 q))%nat by lia.
  rewrite skipn_app. fold p. replace (p - 20 - p)%nat with 0%nat by lia.
  change (skipn 0 ?l) with l.
  rewrite firstn_app, length_skipn. fold p.
  rewrite firstn_all2 by (rewrite length_skipn; fold p; lia).
  f_equal.
  replace (p - (p - 20) + (n + Nat.min 20 q) - (p - (p - 20)))%nat
    with (n + Nat.min 20 q)%nat by lia.
  rewrite firstn_app. fold n.
  rewrite firstn_all2 by (fold n; lia). f_equal.
  replace (n + Nat.min 20 q - n)%nat with (Nat.min 20 q) by lia.
  destruct (Nat.le_ge_cases 20 q).
  - rewrite Nat.min_l by lia. reflexivity.
  - rewrite Nat.min_r by lia. rewrite !firstn_all2 by (fold q; lia).
    reflexivity.
Qed.

(** X6.  The record of a binary match without deep inspection reports
    the position of the first occurrence of the search bytes in the entry,
    and shows the bytes of that occurrence with up to twenty bytes before it
    and up to twenty after it. *)
Theorem binary_snippet_window file_name jar_path deep sb content :
  contains Byte.eqb sb content = true ->
  endswith N.eqb file_name (lit ".class") && deep = false ->
  exists pre post,
    content = pre ++ sb ++ post
    /\ (forall pre' post',
          content = pre' ++ sb ++ post' -> (length pre <= length pre')%nat)
    /\ snippet (binary_match file_name jar_path deep sb content)
       = lit "Binary match at position "
         ++ str_of_int (Z.of_nat (length pre)) ++ lit ": "
         ++ bytes_repr (skipn (length pre - 20) pre ++ sb ++ firstn 20 post).
Proof.
  intros Hc Hd.
  destruct (find_from_first Byte.eqb byte_eqb_eq content sb 0 Hc)
    as [pre [post [E [Hf Hmin]]]].
  exists pre, post. split; [exact E|]. split; [exact Hmin|].
  unfold binary_match. cbn [snippet]. rewrite Hd. unfold find. rewrite Hf.
  rewrite Z.add_0_l. subst content. rewrite context_slice. reflexivity.
Qed.

Lemma binary_snippet_window_witness :
  let content :=
    blit "0123456789012345678901234 TODO and TODO again, later" in
  exists pre post,
    content = pre ++ blit "TODO" ++ post
    /\ (forall pre' post',
          content = pre' ++ blit "TODO" ++ post' ->
          (length pre <= length pre')%nat)
    /\ snippet (binary_match (lit "notes.bin") (lit "/lib/a.JAR") false
                             (blit "TODO") content)
       = lit "Binary match at position "
         ++ str_of_int (Z.of_nat (length pre)) ++ lit ": "
         ++ bytes_repr (skipn (length pre - 20) pre ++ blit "TODO"
                        ++ firstn 20 post).
Proof.
  exact (binary_snippet_window (lit "notes.bin") (lit "/lib/a.JAR") false
           (blit "TODO")
           (blit "0123456789012345678901234 TODO and TODO again, later")
           eq_refl eq_refl).
Defined.

(** The record of that match, in full. *)
Example binary_snippet_of_a_long_entry :
  snippet (binary_match (lit "notes.bin") (lit "/lib/a.JAR") false
             (blit "TODO")
             (blit "0123456789012345678901234 TODO and TODO again, later"))
  = lit "Binary match at position 26: b'6789012345678901234 TODO and TODO again, lat'".
Proof. reflexivity. Qed.

Lemma forallb_rev_true {A} (p : A -> bool) (l : list A) :
  forallb p l = true -> forallb p (rev l) = true.
Proof.
  rewrite !forallb_forall. intros H x Hx. apply H. apply in_rev. exact Hx.
Qed.

(** The runs of literal bytes: each is three bytes or more, holds only
    bytes from 1 to 127, and is a run of the content. *)
Lemma literal_runs_sound content :
  forall cur,
    forallb in_literal_range cur = true ->
    Forall (fun r => (3 <= length r)%nat
                     /\ forallb in_literal_range r = true
                     /\ part_of r (rev cur ++ content))
           (literal_runs cur content).
Proof.
  assert (Hclose : forall cur rest,
            forallb in_literal_range cur = true ->
            Forall (fun r => (3 <= length r)%nat
                             /\ forallb in_literal_range r = true
                             /\ part_of r (rev cur ++ rest))
                   (close_run cur)).
  { intros cur rest Hcur. unfold close_run.
    destruct (3 <=? length cur)%nat eqn:E; [|constructor].
    constructor; [|constructor]. apply Nat.leb_le in E.
    rewrite length_rev. repeat split;
      [exact E | apply forallb_rev_true; exact Hcur|].
    exists [], rest. reflexivity. }
  induction content as [|b rest IH]; intros cur Hcur; simpl.
  - apply Hclose. exact Hcur.
  - destruct (in_literal_range b) eqn:Eb.
    + specialize (IH (b :: cur)). simpl in IH. rewrite Eb, Hcur in IH.
      specialize (IH eq_refl). rewrite <- app_assoc in IH. exact IH.
    + apply Forall_app. split; [apply Hclose; exact Hcur|].
      specialize (IH [] eq_refl). simpl in IH.
      eapply Forall_impl; [|exact IH].
      intros r [H3 [Hr [pre [post Hp]]]]. repeat split; try assumption.
      exists (rev cur ++ b :: pre), post. rewrite Hp, <- app_assoc.
      reflexivity.
Qed.

(** X7.  With deep inspection the record of a match in a class file
    lists byte runs of the entry: each run is three bytes or more, holds only
    bytes from 1 to 127 and is a run of the content, and at most twenty are
    listed. *)
Theorem deep_inspection_literals file_name jar_path sb content :
  endswith N.eqb file_name (lit ".class") = true ->
  literal_runs [] content <> [] ->
  let shown := firstn 20 (literal_runs [] content) in
  snippet (binary_match file_name jar_path true sb content)
  = lit "Binary match at position "
    ++ str_of_int (find Byte.eqb content sb) ++ lit ": "
    ++ lit "String literals: " ++ join (lit " | ") (map bytes_repr shown)
  /\ (length shown <= 20)%nat
  /\ Forall (fun r => (3 <= length r)%nat
                      /\ forallb in_literal_range r = true
                      /\ part_of r content) shown.
Proof.
  intros Hclass Hne shown. split; [|split].
  - unfold binary_match. cbn [snippet]. rewrite Hclass. simpl andb. cbv iota.
    subst shown.
    destruct (literal_runs [] content) as [|r0 runs] eqn:E; [congruence|].
    rewrite slice_to_firstn by lia. reflexivity.
  - unfold shown. rewrite length_firstn. lia.
  - unfold shown. pose proof (literal_runs_sound content [] eq_refl) as H.
    simpl in H. rewrite Forall_forall in *. intros r Hr. apply H.
    apply (In_nth_error) in Hr. destruct Hr as [i Hi].
    apply nth_error_In with i. rewrite nth_error_firstn in Hi.
    destruct (i <? 20)%nat; [exact Hi | discriminate].
Qed.

Lemma deep_inspection_literals_witness :
  snippet (binary_match (lit "com/acme/Foo.class") (lit "/lib/a.JAR") true
             (blit "TODO") ([xca; xfe; xba; xbe] ++ blit "TODO and TODO"))
  = lit "Binary match at position 4: String literals: b'TODO and TODO'".
Proof.
  destruct (deep_inspection_literals (lit "com/acme/Foo.class")
              (lit "/lib/a.JAR") (blit "TODO")
              ([xca; xfe; xba; xbe] ++ blit "TODO and TODO") eq_refl
              ltac:(discriminate)) as [H _].
  exact H.
Defined.

End BinaryScanMore.

(** ** The encoding of text, and the two modes of the search *)

Module EncodingMore.
Import Py Os JarTextScanner TextSpec MoreSpec PyFacts TextScanMore.

Lemma to_N_byte_of_N (n : N) : (n < 256)%N -> Byte.to_N (byte_of_N n) = n.
Proof.
  intros H. unfold byte_of_N. destruct (Byte.of_N n) as [b|] eqn:E.
  - apply Byte.to_of_N. exact E.
  - apply Byte.of_N_None_iff in E. lia.
Qed.

Lemma Some_inj {A} (x y : A) : Some x = Some y -> x = y.
Proof. congruence. Qed.

(** One step of the decoder. *)
Lemma decode_utf8_step (b1 : byte) (r1 : bytes) :
  decode_utf8_ignore (b1 :: r1) =
    let c1 := Byte.to_N b1 in
    if (c1 <? 128)%N then c1 :: decode_utf8_ignore r1
    else if (c1 <? 194)%N then decode_utf8_ignore r1
    else if (c1 <? 224)%N then
      match r1 with
      | [] => []
      | b2 :: r2 =>
        let c2 := Byte.to_N b2 in
        if is_cont c2
        then ((c1 - 192) * 64 + (c2 - 128))%N :: decode_utf8_ignore r2
        else decode_utf8_ignore r1
      end
    else if (c1 <? 240)%N then
      match r1 with
      | [] => []
      | b2 :: r2 =>
        let c2 := Byte.to_N b2 in
        if is_cont c2 && negb ((c1 =? 224) && (c2 <? 160))%N
           && negb ((c1 =? 237) && (160 <=? c2))%N
        then match r2 with
             | [] => []
             | b3 :: r3 =>
               let c3 := Byte.to_N b3 in
               if is_cont c3
               then ((c1 - 224) * 4096 + (c2 - 128) * 64 + (c3 - 128))%N
                    :: decode_utf8_ignore r3
               else decode_utf8_ignore r2
             end
        else decode_utf8_ignore r1
      end
    else if (c1 <? 245)%N then
      match r1 with
      | [] => []
      | b2 :: r2 =>
        let c2 := Byte.to_N b2 in
        if is_cont c2 && negb ((c1 =? 240) && (c2 <? 144))%N
           && negb ((c1 =? 244) && (144 <=? c2))%N
        then match r2 with
             | [] => []
             | b3 :: r3 =>
               let c3 := Byte.to_N b3 in
               if is_cont c3
               then match r3 with
                    | [] => []
                    | b4 :: r4 =>
                      let c4 := Byte.to_N b4 in
                      if is_cont c4
                      then ((c1 - 240) * 262144 + (c2 - 128) * 4096
                            + (c3 - 128) * 64 + (c4 - 128))%N
                           :: decode_utf8_ignore r4
                      else decode_utf8_ignore r3
                    end
               else decode_utf8_ignore r2
             end
        else decode_utf8_ignore r1
      end
    else decode_utf8_ignore r1.
Proof. reflexivity. Qed.

Ltac name_bytes :=
  repeat match goal with
         | |- context [byte_of_N ?n] =>
             let b := fresh "b" in
             let Hb := fresh "Hb" in
             assert (Hb : Byte.to_N (byte_of_N n) = n)
               by (apply to_N_byte_of_N; lia);
             generalize dependent (byte_of_N n); intros b Hb
         end.

Ltac decide_tests :=
  repeat match goal with
         | |- context [(?a <? ?b)%N] =>
             let E := fresh "E" in
             destruct (N.ltb_spec a b) as [E|E]; try lia
         | |- context [(?a <=? ?b)%N] =>
             let E := fresh "E" in
             destruct (N.leb_spec a b) as [E|E]; try lia
         | |- context [(?a =? ?b)%N] =>
             let E := fresh "E" in
             destruct (N.eqb_spec a b) as [E|E]; try lia
         end.

Ltac decode_byte :=
  rewrite decode_utf8_step; cbv beta iota zeta; unfold is_cont;
  repeat match goal with
         | Hb : Byte.to_N ?b = _ |- context [Byte.to_N ?b] => rewrite Hb
         end;
  decide_tests; cbv [andb negb].

(** Decoding reads back the character that was encoded. *)
Lemma decode_encode_char (c : N) (bs rest : bytes) :
  encode_utf8_char c = Some bs ->
  decode_utf8_ignore (bs ++ rest) = c :: decode_utf8_ignore rest.
Proof.
  unfold encode_utf8_char.
  pose proof (N.div_mod c 64 ltac:(lia)) as D1.
  pose proof (N.mod_lt c 64 ltac:(lia)) as M1.
  pose proof (N.div_mod (c / 64) 64 ltac:(lia)) as D2.
  pose proof (N.mod_lt (c / 64) 64 ltac:(lia)) as M2.
  pose proof (N.div_mod (c / 4096) 64 ltac:(lia)) as D3.
  pose proof (N.mod_lt (c / 4096) 64 ltac:(lia)) as M3.
  assert (Q2 : (c / 4096 = c / 64 / 64)%N)
    by (rewrite N.Div0.div_div; reflexivity).
  assert (Q3 : (c / 262144 = c / 4096 / 64)%N)
    by (rewrite Q2, !N.Div0.div_div; reflexivity).
  rewrite Q3, Q2 in *.
  set (q1 := (c / 64)%N) in *. set (r1 := (c mod 64)%N) in *.
  set (q2 := (q1 / 64)%N) in *. set (r2 := (q1 mod 64)%N) in *.
  set (q3 := (q2 / 64)%N) in *. set (r3 := (q2 mod 64)%N) in *.
  clearbody q1 r1 q2 r2 q3 r3. clear Q2 Q3.
  destruct (N.ltb_spec c 128) as [H1|H1].
  { intros H. apply Some_inj in H. subst bs. name_bytes.
    rewrite <- ?app_comm_cons, app_nil_l.
    decode_byte. reflexivity. }
  destruct (N.ltb_spec c 2048) as [H2|H2].
  { intros H. apply Some_inj in H. subst bs. name_bytes.
    rewrite <- ?app_comm_cons, app_nil_l.
    decode_byte. f_equal. lia. }
  destruct ((55296 <=? c) && (c <=? 57343))%N eqn:Hs; [discriminate|].
  apply andb_false_iff in Hs. rewrite N.leb_gt, N.leb_gt in Hs.
  destruct (N.ltb_spec c 65536) as [H3|H3].
  { intros H. apply Some_inj in H. subst bs. name_bytes.
    rewrite <- ?app_comm_cons, app_nil_l.
    decode_byte; f_equal; lia. }
  destruct (N.ltb_spec c 1114112) as [H4|H4]; [|discriminate].
  intros H. apply Some_inj in H. subst bs. name_bytes.
    rewrite <- ?app_comm_cons, app_nil_l.
  decode_byte; f_equal; lia.
Qed.

Lemma encode_utf8_app (a b : str) :
  encode_utf8 (a ++ b)
  = match encode_utf8 a, encode_utf8 b with
    | Some x, Some y => Some (x ++ y)
    | _, _ => None
    end.
Proof.
  induction a as [|c a IH]; simpl.
  - destruct (encode_utf8 b); reflexivity.
  - rewrite IH. destruct (encode_utf8_char c) as [cs|]; [|reflexivity].
    destruct (encode_utf8 a) as [x|]; [|reflexivity].
    destruct (encode_utf8 b) as [y|]; [|reflexivity].
    rewrite app_assoc. reflexivity.
Qed.

(** Decoding reads back the text that was encoded. *)
Lemma decode_encode (s : str) (bs : bytes) :
  encode_utf8 s = Some bs -> decode_utf8_ignore bs = s.
Proof.
  revert bs. induction s as [|c s IH]; intros bs; simpl.
  - intros H. apply Some_inj in H. subst bs. reflexivity.
  - destruct (encode_utf8_char c) as [cs|] eqn:Ec; [|discriminate].
    destruct (encode_utf8 s) as [rest|]; [|discriminate].
    intros H. apply Some_inj in H. subst bs.
    rewrite (decode_encode_char c cs rest Ec). f_equal. apply IH.
    reflexivity.
Qed.

Lemma part_of_trans {A} (a b c : list A) :
  part_of a b -> part_of b c -> part_of a c.
Proof.
  intros [p1 [q1 ->]] [p2 [q2 ->]]. exists (p2 ++ p1), (q1 ++ q2).
  rewrite <- !app_assoc. reflexivity.
Qed.

(** Every line of [splitlines] is a run of the text. *)
Lemma splitlines_aux_part (n : nat) :
  forall s cur line,
    (length s <= n)%nat ->
    In line (splitlines_aux cur s) -> part_of line (rev cur ++ s).
Proof.
  induction n as [|n IH]; intros s cur line Hn Hin.
  - destruct s as [|c rest]; [|simpl in Hn; lia]. simpl in Hin.
    destruct cur as [|x cur]; [destruct Hin|].
    destruct Hin as [<- | []]. exists [], []. rewrite app_nil_r. reflexivity.
  - destruct s as [|c rest].
    + simpl in Hin. destruct cur as [|x cur]; [destruct Hin|].
      destruct Hin as [<- | []]. exists [], [].
      rewrite app_nil_r. reflexivity.
    + simpl in Hn. simpl in Hin.
      assert (Hhead : part_of (rev cur) (rev cur ++ c :: rest))
        by (exists [], (c :: rest); reflexivity).
      assert (Hrest : forall l, In l (splitlines_aux [] rest) ->
                                part_of l (rev cur ++ c :: rest)).
      { intros l Hl. apply (IH rest [] l) in Hl; [|lia]. simpl in Hl.
        destruct Hl as [p [q ->]]. exists (rev cur ++ c :: p), q.
        rewrite <- app_assoc. reflexivity. }
      destruct (c =? 13)%N.
      * destruct rest as [|c' rest'].
        -- destruct Hin as [<- | Hin]; [exact Hhead | apply Hrest; exact Hin].
        -- destruct (c' =? 10)%N.
           ++ destruct Hin as [<- | Hin]; [exact Hhead|].
              apply (IH rest' [] line) in Hin; [|simpl in Hn; lia].
              simpl in Hin. destruct Hin as [p [q ->]].
              exists (rev cur ++ c :: c' :: p), q.
              rewrite <- app_assoc. reflexivity.
           ++ destruct Hin as [<- | Hin];
                [exact Hhead | apply Hrest; exact Hin].
      * destruct (is_linebreak c).
        -- destruct Hin as [<- | Hin]; [exact Hhead | apply Hrest; exact Hin].
        -- apply (IH rest (c :: cur) line) in Hin; [|lia]. simpl in Hin.
           rewrite <- app_assoc in Hin. exact Hin.
Qed.

Lemma splitlines_part (s line : str) :
  In line (splitlines s) -> part_of line s.
Proof.
  intros H. apply (splitlines_aux_part (length s) s [] line); [lia | exact H].
Qed.

(** X8.  For an entry whose content is the UTF-8 encoding of a text, a
    search that respects case and finds the search string in text mode also
    finds it in binary mode: the search string has an encoding, and the entry
    gives its binary record. *)
Theorem text_hit_is_binary_hit jar jar_path st deep file_name text content :
  read jar file_name = Some content ->
  encode_utf8 text = Some content ->
  scan_entry jar jar_path st true false deep None file_name <> [] ->
  exists sb,
    encode_utf8 st = Some sb
    /\ scan_entry jar jar_path st true true deep (Some sb) file_name
       = [binary_match file_name jar_path deep sb content].
Proof.
  intros Hread Henc Hne. unfold scan_entry in Hne. rewrite Hread in Hne.
  destruct (is_target_file false file_name); [|congruence].
  rewrite (decode_encode _ _ Henc) in Hne.
  destruct (text_matches file_name jar_path st true text) as [|r rs] eqn:E;
    [congruence|].
  assert (Hr : In r (text_matches file_name jar_path st true text))
    by (rewrite E; left; reflexivity).
  apply text_matches_in in Hr. destruct Hr as [i [line [Hi [Hh _]]]].
  apply nth_error_In, splitlines_part in Hi.
  apply (contains_iff N.eqb N_eqb_eq) in Hh.
  destruct (part_of_trans _ _ _ Hh Hi) as [a [b ->]].
  rewrite !encode_utf8_app in Henc.
  destruct (encode_utf8 a) as [ea|]; [|discriminate].
  destruct (encode_utf8 st) as [sb|]; [|discriminate].
  destruct (encode_utf8 b) as [eb|]; [|discriminate].
  apply Some_inj in Henc. subst content. exists sb. split; [reflexivity|].
  unfold scan_entry. simpl. rewrite Hread.
  replace (contains Byte.eqb sb (ea ++ sb ++ eb)) with true; [reflexivity|].
  symmetry. apply (contains_iff Byte.eqb byte_eqb_eq). exists ea, eb.
  reflexivity.
Qed.

Lemma text_hit_is_binary_hit_witness :
  exists sb,
    encode_utf8 (lit "TODO") = Some sb
    /\ scan_entry Examples.notes_jar (lit "/lib/a.JAR") (lit "TODO") true true
                  false (Some sb) (lit "notes.txt")
       = [binary_match (lit "notes.txt") (lit "/lib/a.JAR") false sb
            (flat_map (fun _ => blit "TODO" ++ [x0a]) (seq 0 5))].
Proof.
  apply (text_hit_is_binary_hit Examples.notes_jar (lit "/lib/a.JAR")
           (lit "TODO") false (lit "notes.txt")
           (flat_map (fun _ => lit "TODO" ++ [10%N]) (seq 0 5))).
  - reflexivity.
  - reflexivity.
  - discriminate.
Defined.

End EncodingMore.

From Stdlib Require Import Sorting.Sorted Sorting.Permutation.

(** ** Further properties of the report in jar_text_scanner.py *)

Module ReportMore.
Import Py Os JarTextScanner TextSpec MoreSpec PyFacts JarTextScannerFacts.

Lemma str_leb_total (a b : str) : str_leb a b = false -> str_leb b a = true.
Proof.
  revert b. induction a as [|x a IH]; intros [|y b]; simpl; try congruence.
  intros H. apply orb_false_iff in H. destruct H as [H1 H2].
  apply N.ltb_ge in H1. destruct (N.eqb_spec x y) as [->|Hne].
  - simpl in H2. rewrite N.eqb_refl, (IH b H2). simpl. apply orb_true_r.
  - replace (y <? x)%N with true; [reflexivity|].
    symmetry. apply N.ltb_lt. lia.
Qed.

Lemma str_leb_trans (a b c : str) : leq a b -> leq b c -> leq a c.
Proof.
  unfold leq. revert b c.
  induction a as [|x a IH]; intros [|y b] [|z c]; simpl; try congruence.
  rewrite !orb_true_iff, !andb_true_iff, !N.ltb_lt, !N.eqb_eq.
  intros [H1 | [-> H1]] [H2 | [-> H2]].
  - left. lia.
  - left. exact H1.
  - left. exact H2.
  - right. split; [reflexivity | apply (IH b c H1 H2)].
Qed.

Lemma insert_sorted_sorted (x : str) (l : list str) :
  StronglySorted leq l -> StronglySorted leq (insert_sorted x l).
Proof.
  induction 1 as [|y l Hs IH Hall]; simpl.
  - constructor; constructor.
  - destruct (str_leb x y) eqn:E.
    + constructor; [constructor; assumption|].
      constructor; [exact E|]. eapply Forall_impl; [|exact Hall].
      intros z Hz. apply (str_leb_trans x y z E Hz).
    + constructor; [exact IH|]. apply Forall_forall. intros z Hz.
      apply insert_sorted_in in Hz. destruct Hz as [-> | Hz].
      * apply str_leb_total. exact E.
      * rewrite Forall_forall in Hall. apply Hall. exact Hz.
Qed.

(** [sorted] gives an ascending list with the same elements. *)
Lemma sorted_sorted (l : list str) : StronglySorted leq (sorted l).
Proof.
  unfold sorted. induction l as [|x l IH]; simpl; [constructor|].
  apply insert_sorted_sorted. exact IH.
Qed.

Lemma insert_sorted_perm (x : str) (l : list str) :
  Permutation (insert_sorted x l) (x :: l).
Proof.
  induction l as [|y l IH]; simpl; [reflexivity|].
  destruct (str_leb x y); [reflexivity|].
  rewrite IH. apply perm_swap.
Qed.

Lemma sorted_perm (l : list str) : Permutation (sorted l) l.
Proof.
  unfold sorted. induction l as [|x l IH]; simpl; [reflexivity|].
  rewrite insert_sorted_perm, IH. reflexivity.
Qed.

Lemma headers_app (a b : list line) : headers (a ++ b) = headers a ++ headers b.
Proof. unfold headers. apply flat_map_app. Qed.

Lemma headers_show_jar p ms lim : headers (show_jar p ms lim) = [p].
Proof.
  unfold show_jar.
  change (JarHeader p (len ms) :: ?l) with ([JarHeader p (len ms)] ++ l).
  rewrite !headers_app. simpl.
  replace (headers (map match_line (slice_to ms (Z.min (len ms) lim))))
    with (@nil str).
  - destruct (lim <? len ms)%Z; reflexivity.
  - induction (slice_to ms (Z.min (len ms) lim)) as [|m l IH];
      [reflexivity | exact IH].
Qed.

(** The headers of the loop are the paths it reached, in their order. *)
Lemma report_loop_headers (d : dict (list MatchRecord)) lim tl cnt paths t n :
  (forall p, In p paths -> In p (keys d)) ->
  exists rest,
    paths = headers (printed (report_loop d lim tl cnt paths t n)) ++ rest.
Proof.
  revert t n. induction paths as [|p paths IH]; intros t n Hk;
    cbn [report_loop].
  - exists []. reflexivity.
  - destruct (proj1 (get_in_keys d p) (Hk p (or_introl eq_refl))) as [ms ->].
    destruct (tl <=? n + Z.min (len ms) lim)%Z.
    + destruct (index str_eqb p (keys d)) as [i|]; cbn [printed].
      * exists paths. rewrite headers_app, headers_show_jar.
        destruct (0 <? cnt - (i + 1))%Z; reflexivity.
      * exists paths. rewrite headers_show_jar. reflexivity.
    + cbn [printed]. rewrite headers_app, headers_show_jar.
      destruct (IH (t + len ms)%Z (n + Z.min (len ms) lim)%Z) as [rest Hr].
      { intros q Hq. apply Hk. right. exact Hq. }
      exists rest. simpl app. f_equal. exact Hr.
Qed.

Lemma sorted_prefix (a b : list str) :
  StronglySorted leq (a ++ b) -> StronglySorted leq a.
Proof.
  induction a as [|x a IH]; simpl; intros H; [constructor|].
  inversion H as [|? ? Hs Hall]; subst. constructor; [apply IH; exact Hs|].
  apply Forall_app in Hall. tauto.
Qed.

(** X9.  The report names the archives in ascending order of their
    paths: its headers are an initial part of the sorted keys of the result,
    without gap and without change of order. *)
Theorem report_in_sorted_order args (d : dict (list MatchRecord)) :
  let shown := headers (fst (print_results args d)) in
  (exists rest, sorted (keys d) = shown ++ rest)
  /\ StronglySorted leq shown
  /\ Permutation (sorted (keys d)) (keys d).
Proof.
  intros shown.
  assert (Hp : exists rest, sorted (keys d) = shown ++ rest).
  { unfold shown, print_results. destruct d as [|kv d'].
    { exists []. simpl. destruct (contains N.eqb [34%N] (search_text args));
        reflexivity. }
    set (d := kv :: d').
    destruct (report_loop_headers d (limit args) (total_limit args) (len d)
                (sorted (keys d)) 0 0) as [rest Hr].
    { intros p Hp. exact (proj1 (sorted_in p _) Hp). }
    exists rest. rewrite Hr at 1. f_equal.
    destruct (ended (report_loop d (limit args) (total_limit args) (len d)
                       (sorted (keys d)) 0 0)); simpl.
    - rewrite !headers_app. simpl.
      destruct (displayed_matches _ <? total_matches _)%Z;
        simpl; rewrite app_nil_r; reflexivity.
    - reflexivity. }
  split; [exact Hp|]. split; [|apply sorted_perm].
  destruct Hp as [rest Hr]. apply (sorted_prefix shown rest).
  rewrite <- Hr. apply sorted_sorted.
Qed.

Lemma sum_over_cons g p (l : list str) :
  sum_over g (p :: l) = (g p + sum_over g l)%Z.
Proof. reflexivity. Qed.

Lemma sum_over_perm g (l l' : list str) :
  Permutation l l' -> sum_over g l = sum_over g l'.
Proof.
  unfold sum_over. induction 1; simpl; lia.
Qed.

Lemma sum_over_ext g g' (l : list str) :
  (forall p, In p l -> g p = g' p) -> sum_over g l = sum_over g' l.
Proof.
  unfold sum_over. induction l as [|p l IH]; intros H; simpl; [reflexivity|].
  rewrite (H p (or_introl eq_refl)), IH; [reflexivity|].
  intros q Hq. apply H. right. exact Hq.
Qed.

(** With unique keys, a sum over the keys is a sum over the entries. *)
Lemma sum_over_keys (f : list MatchRecord -> Z) (d : dict (list MatchRecord)) :
  NoDup (keys d) ->
  sum_over (fun p => f (matches_of d p)) (keys d)
  = fold_right (fun kv acc => (f (snd kv) + acc)%Z) 0%Z d.
Proof.
  induction d as [|[k v] d IH]; intros Hnd; [reflexivity|].
  inversion Hnd as [|? ? Hk Hnd']; subst. simpl.
  unfold matches_of at 1. simpl. rewrite str_eqb_refl. f_equal.
  rewrite <- (IH Hnd'). apply sum_over_ext. intros p Hp.
  unfold matches_of. simpl.
  destruct (str_eqb k p) eqn:E; [|reflexivity].
  apply str_eqb_eq in E. subst p. contradiction.
Qed.

Lemma sum_over_min_nonneg (d : dict (list MatchRecord)) lim paths :
  (0 <= lim)%Z ->
  (0 <= sum_over (fun p => Z.min (len (matches_of d p)) lim) paths)%Z.
Proof.
  intros Hl. unfold sum_over, len.
  induction paths as [|p paths IH]; simpl; lia.
Qed.

(** The loop below the total limit: every path gets its block. *)
Lemma report_loop_complete (d : dict (list MatchRecord)) lim tl cnt paths :
  (0 <= lim)%Z ->
  (forall p, In p paths -> In p (keys d)) ->
  forall t n,
    (n + sum_over (fun p => Z.min (len (matches_of d p)) lim) paths < tl)%Z ->
    report_loop d lim tl cnt paths t n
    = {| printed := flat_map (fun p => show_jar p (matches_of d p) lim) paths;
         total_matches :=
           (t + sum_over (fun p => len (matches_of d p)) paths)%Z;
         displayed_matches :=
           (n + sum_over (fun p => Z.min (len (matches_of d p)) lim) paths)%Z;
         ended := Returned |}.
Proof.
  intros Hl. induction paths as [|p paths IH]; intros Hk t n Hs;
    cbn [report_loop flat_map].
  - unfold sum_over. simpl. rewrite !Z.add_0_r. reflexivity.
  - pose proof (sum_over_min_nonneg d lim paths Hl) as Hnn.
    rewrite !sum_over_cons in *.
    destruct (proj1 (get_in_keys d p) (Hk p (or_introl eq_refl))) as [ms E].
    assert (Em : matches_of d p = ms)
      by (unfold matches_of; rewrite E; reflexivity).
    rewrite Em in *. rewrite E.
    replace (tl <=? n + Z.min (len ms) lim)%Z with false
      by (symmetry; apply Z.leb_gt; lia).
    rewrite IH.
    + cbn [printed total_matches displayed_matches ended].
      f_equal; lia.
    + intros q Hq. apply Hk. right. exact Hq.
    + lia.
Qed.

(** X10.  When the matches to display, over all archives, stay below the
    total limit, the report is complete: the block of every archive in sorted
    order, then the summary with the number of all matches and of all
    archives, then the count of displayed matches if some were cut by the
    limit per archive. *)
Theorem report_complete_below_total_limit args (d : dict (list MatchRecord)) :
  d <> [] ->
  NoDup (keys d) ->
  (0 <= limit args)%Z ->
  (shown_total d (limit args) < total_limit args)%Z ->
  fst (print_results args d)
  = [SearchResults; Rule]
    ++ flat_map (fun p => show_jar p (matches_of d p) (limit args))
                (sorted (keys d))
    ++ [Summary (true_total d) (len d)]
    ++ (if (shown_total d (limit args) <? true_total d)%Z
        then [Displayed (shown_total d (limit args)) (true_total d)]
        else []).
Proof.
  intros Hne Hnd Hl Hs.
  assert (Hshown : sum_over (fun p => Z.min (len (matches_of d p)) (limit args))
                            (sorted (keys d))
                   = shown_total d (limit args)).
  { rewrite (sum_over_perm _ _ _ (sorted_perm (keys d))).
    apply (sum_over_keys (fun ms => Z.min (len ms) (limit args)) d Hnd). }
  assert (Htotal : sum_over (fun p => len (matches_of d p)) (sorted (keys d))
                   = true_total d).
  { rewrite (sum_over_perm _ _ _ (sorted_perm (keys d))).
    apply (sum_over_keys (fun ms => len ms) d Hnd). }
  unfold print_results. destruct d as [|kv d']; [congruence|].
  set (d := kv :: d') in *.
  rewrite (report_loop_complete d (limit args) (total_limit args) (len d)
             (sorted (keys d)) Hl).
  - cbn [ended printed total_matches displayed_matches fst].
    rewrite !Z.add_0_l, Hshown, Htotal. reflexivity.
  - intros p Hp. exact (proj1 (sorted_in p _) Hp).
  - rewrite Z.add_0_l, Hshown. exact Hs.
Qed.

Lemma report_complete_below_total_limit_witness :
  let args := TextExamples.todo_args 2 1000 None in
  fst (print_results args TextExamples.two_jars)
  = [SearchResults; Rule]
    ++ show_jar (lit "a.jar") (TextExamples.matches_in (lit "a.jar") 3) 2
    ++ show_jar (lit "b.jar") (TextExamples.matches_in (lit "b.jar") 2) 2
    ++ [Summary 5 2; Displayed 4 5].
Proof.
  intros args.
  rewrite (report_complete_below_total_limit args TextExamples.two_jars).
  - reflexivity.
  - discriminate.
  - repeat constructor; simpl; intuition discriminate.
  - simpl. lia.
  - reflexivity.
Defined.

Lemma count_match_lines_show_jar p ms lim :
  (0 <= lim)%Z ->
  Z.of_nat (count_match_lines (show_jar p ms lim)) = Z.min (len ms) lim.
Proof.
  intros Hl. unfold show_jar.
  change (JarHeader p (len ms) :: ?l) with ([JarHeader p (len ms)] ++ l).
  rewrite !count_match_lines_app, count_match_lines_map.
  rewrite slice_to_firstn by (unfold len; lia). rewrite length_firstn.
  replace (count_match_lines [JarHeader p (len ms)]) with 0%nat
    by reflexivity.
  replace (count_match_lines [Blank]) with 0%nat by reflexivity.
  replace (count_match_lines
             (if (lim <? len ms)%Z then [MoreMatches (len ms - lim)] else []))
    with 0%nat by (destruct (lim <? len ms)%Z; reflexivity).
  unfold len. lia.
Qed.

(** The loop: what it counts as displayed is what it printed, and it
    stops before the count passes the total limit by a full block. *)
Lemma report_loop_bound (d : dict (list MatchRecord)) lim tl cnt paths :
  (0 <= lim)%Z ->
  forall t n,
    (n < tl)%Z ->
    let r := report_loop d lim tl cnt paths t n in
    (displayed_matches r < tl + lim)%Z
    /\ (Z.of_nat (count_match_lines (printed r)) = displayed_matches r - n)%Z.
Proof.
  intros Hl. induction paths as [|p paths IH]; intros t n Hn;
    cbn [report_loop].
  - cbn [displayed_matches printed]. split; [lia|]. simpl. lia.
  - destruct (get d p) as [ms|];
      [|cbn [displayed_matches printed]; split; [lia | simpl; lia]].
    pose proof (count_match_lines_show_jar p ms lim Hl) as Hc.
    assert (Hm : (0 <= Z.min (len ms) lim <= lim)%Z) by (unfold len; lia).
    destruct (Z.leb_spec tl (n + Z.min (len ms) lim)) as [Hstop|Hgo].
    + destruct (index str_eqb p (keys d)) as [i|];
        cbn [displayed_matches printed].
      * split; [lia|]. rewrite count_match_lines_app.
        replace (count_match_lines
                   (if (0 <? cnt - (i + 1))%Z
                    then [OutputLimitReached (cnt - (i + 1)); UseTotalLimit]
                    else []))
          with 0%nat by (destruct (0 <? cnt - (i + 1))%Z; reflexivity).
        lia.
      * split; [lia|]. lia.
    + cbn [displayed_matches printed].
      destruct (IH (t + len ms)%Z (n + Z.min (len ms) lim)%Z Hgo) as [H1 H2].
      split; [exact H1|]. rewrite count_match_lines_app. lia.
Qed.

(** X11.  With a limit per archive that is not negative and a positive
    total limit, the report shows fewer match lines than the sum of the two
    limits; the count it gives as displayed is the number of match lines it
    printed. *)
Theorem displayed_lines_bound args (d : dict (list MatchRecord)) :
  (0 <= limit args)%Z ->
  (0 < total_limit args)%Z ->
  let out := fst (print_results args d) in
  let shown := Z.of_nat (count_match_lines out) in
  (shown < total_limit args + limit args)%Z
  /\ forall a b, In (Displayed a b) out -> a = shown.
Proof.
  intros Hl Ht out shown. unfold shown, out, print_results.
  destruct d as [|kv d'].
  - cbn [fst].
    replace (count_match_lines _) with 0%nat
      by (destruct (contains N.eqb [34%N] (search_text args)); reflexivity).
    split; [simpl; lia|]. intros a b Hin. exfalso.
    destruct (contains N.eqb [34%N] (search_text args)); simpl in Hin;
      intuition discriminate.
  - set (d := kv :: d').
    set (r := report_loop d (limit args) (total_limit args) (len d)
                          (sorted (keys d)) 0 0).
    destruct (report_loop_bound d (limit args) (total_limit args) (len d)
                (sorted (keys d)) Hl 0 0 Ht) as [H1 H2].
    cbv zeta in H1, H2. fold r in H1, H2.
    assert (Hret : ended r = Returned).
    { apply report_loop_returns. intros p Hp.
      exact (proj1 (sorted_in p _) Hp). }
    rewrite Hret. cbn [fst].
    assert (Hc : Z.of_nat
                   (count_match_lines
                      ([SearchResults; Rule] ++ printed r
                       ++ [Summary (total_matches r) (len d)]
                       ++ (if (displayed_matches r <? total_matches r)%Z
                           then [Displayed (displayed_matches r)
                                           (total_matches r)]
                           else [])))
                 = displayed_matches r).
    { rewrite !count_match_lines_app.
      change (count_match_lines [SearchResults; Rule]) with 0%nat.
      change (count_match_lines [Summary (total_matches r) (len d)])
        with 0%nat.
      replace (count_match_lines
                 (if (displayed_matches r <? total_matches r)%Z
                  then [Displayed (displayed_matches r) (total_matches r)]
                  else []))
        with 0%nat
        by (destruct (displayed_matches r <? total_matches r)%Z; reflexivity).
      lia. }
    split; [rewrite Hc; exact H1|].
    intros a b Hin. rewrite Hc.
    apply in_app_or in Hin. destruct Hin as [Hin | Hin];
      [simpl in Hin; intuition discriminate|].
    apply in_app_or in Hin. destruct Hin as [Hin | Hin].
    + exfalso.
      destruct (report_loop_blocks d (limit args) (total_limit args) (len d)
                  (sorted (keys d)) 0 0)
        as [visited [rest [notice [_ [Hp Hn]]]]].
      fold r in Hp. rewrite Hp in Hin. apply in_app_or in Hin. destruct Hin as [Hin | Hin].
      * apply in_flat_map in Hin. destruct Hin as [p [_ Hin]].
        destruct (get d p) as [ms|]; [|destruct Hin].
        unfold show_jar in Hin. destruct Hin as [Hin | Hin]; [discriminate|].
        apply in_app_or in Hin. destruct Hin as [Hin | Hin].
        -- apply in_map_iff in Hin. destruct Hin as [m [Hm _]]. discriminate.
        -- apply in_app_or in Hin. destruct Hin as [Hin | Hin].
           ++ destruct (limit args <? len ms)%Z; simpl in Hin;
                intuition discriminate.
           ++ simpl in Hin. intuition discriminate.
      * destruct Hn as [-> | [k ->]]; simpl in Hin; intuition discriminate.
    + apply in_app_or in Hin. destruct Hin as [Hin | Hin];
        [simpl in Hin; intuition discriminate|].
      destruct (displayed_matches r <? total_matches r)%Z; simpl in Hin;
        [|destruct Hin].
      destruct Hin as [[= <- _] | []]. reflexivity.
Qed.

Lemma displayed_lines_bound_witness :
  let out :=
    fst (print_results (TextExamples.todo_args 10 2 None)
                       TextExamples.two_jars) in
  (Z.of_nat (count_match_lines out) < 2 + 10)%Z
  /\ forall a b, In (Displayed a b) out
                 -> a = Z.of_nat (count_match_lines out).
Proof.
  apply (displayed_lines_bound (TextExamples.todo_args 10 2 None)
           TextExamples.two_jars); simpl; lia.
Defined.

End ReportMore.

(** ** Further properties of jar_package_scanner.py *)

Module PackageMore.
Import Py PyVal Os JarPackageScanner JarPackageMain PackageSpec MoreSpec.
Import PyFacts JarPackageScannerFacts ReportMore.

(** What one entry adds to the results. *)
Lemma scan_entry_adds jar jar_path results file_name :
  exists added,
    scan_entry jar jar_path results file_name
    = results ++ map (fun n => (n, jar_path)) added
    /\ forall n, In n added <-> In n (entry_packages jar file_name).
Proof.
  unfold scan_entry, entry_packages.
  destruct (endswith N.eqb file_name (lit ".class")).
  - destruct (dirname file_name) as [|c package_path].
    + exists []. rewrite app_nil_r. split; [reflexivity | tauto].
    + rewrite in_results_false. exists [replace_char 47 46 (c :: package_path)].
      split; [reflexivity | tauto].
  - destruct (endswith N.eqb file_name (lit ".java")).
    + destruct (read jar file_name) as [raw|].
      * exists (findall_package (decode_utf8_ignore raw)).
        split; [|tauto]. generalize (findall_package (decode_utf8_ignore raw)).
        intros names. revert results.
        induction names as [|m names IH]; intros results; simpl.
        -- rewrite app_nil_r. reflexivity.
        -- rewrite in_results_false. simpl. rewrite IH, <- app_assoc.
           reflexivity.
      * exists []. rewrite app_nil_r. split; [reflexivity | tauto].
    + exists []. rewrite app_nil_r. split; [reflexivity | tauto].
Qed.

Lemma scan_entries_in jar jar_path names :
  forall results r,
    In r (fold_left (scan_entry jar jar_path) names results)
    <-> In r results
        \/ exists file_name,
             In file_name names
             /\ In (fst r) (entry_packages jar file_name)
             /\ snd r = jar_path.
Proof.
  induction names as [|file_name names IH]; intros results r; simpl.
  - split; [tauto | intros [H | [f [[] _]]]; exact H].
  - rewrite IH.
    destruct (scan_entry_adds jar jar_path results file_name)
      as [added [-> Ha]].
    rewrite in_app_iff, in_map_iff. split.
    + intros [[H | [n [<- Hn]]] | [f [Hf H]]].
      * left. exact H.
      * right. exists file_name. simpl. split; [left; reflexivity|].
        split; [apply Ha; exact Hn | reflexivity].
      * right. exists f. split; [right; exact Hf | exact H].
    + intros [H | [f [[<- | Hf] [H1 H2]]]].
      * left. left. exact H.
      * left. right. exists (fst r). split; [|apply Ha; exact H1].
        destruct r as [n s]. simpl in *. subst s. reflexivity.
      * right. exists f. split; [exact Hf | split; assumption].
Qed.

(** X12.  The scan of an archive gives the pair of a package name and a
    source exactly when the source is the path of the archive and an entry of
    the listing gives the name: a class file in a directory gives the
    directory with dots for slashes, a readable source file gives the names
    its text declares, and no other entry gives a name. *)
Theorem package_scan_records w jar_path package_name source :
  In (package_name, source) (fst (scan_jar_file w jar_path))
  <-> source = jar_path
      /\ exists jar file_name,
           zip_at w jar_path = ZipOpened jar
           /\ In file_name (namelist jar)
           /\ In package_name (entry_packages jar file_name).
Proof.
  unfold scan_jar_file. destruct (zip_at w jar_path) as [e|jar]; simpl.
  - split; [intros [] | intros [_ [jar [f [H _]]]]; discriminate].
  - rewrite scan_entries_in. simpl. split.
    + intros [[] | [f [Hf [Hp Hs]]]]. split; [exact Hs|].
      exists jar, f. repeat split; assumption.
    + intros [-> [jar' [f [[= <-] [Hf Hp]]]]]. right. exists f.
      repeat split; assumption || reflexivity.
Qed.

(** Every name the pattern finds is matched somewhere in the text. *)
Lemma findall_from_sound (s : str) :
  forall skip name,
    In name (findall_from skip s) ->
    exists pre s' n, s = pre ++ s' /\ match_package_at s' = Some (name, n).
Proof.
  induction s as [|c s IH]; intros skip name H; simpl in H; [destruct H|].
  assert (Hrec : forall k, In name (findall_from k s) ->
                           exists pre s' n,
                             c :: s = pre ++ s'
                             /\ match_package_at s' = Some (name, n)).
  { intros k Hk. destruct (IH k name Hk) as [pre [s' [n [-> Hm]]]].
    exists (c :: pre), s', n. split; [reflexivity | exact Hm]. }
  destruct skip as [|k]; [|apply (Hrec k H)].
  destruct (match_package_at (c :: s)) as [[name0 n]|] eqn:E;
    [|apply (Hrec 0%nat H)].
  destruct H as [<- | H]; [|apply (Hrec (n - 1)%nat H)].
  exists [], (c :: s), n. split; [reflexivity | exact E].
Qed.

(** X13.  Every name that the scan of a source text extracts is matched
    by the pattern at some place of the text: the word [package], white
    space, the name made of letters, digits, underscores and dots, and a
    semicolon.  A text that starts with such a declaration has its name as
    the first one extracted. *)
Theorem declared_packages content :
  (forall name,
     In name (findall_package content) ->
     exists pre s n, content = pre ++ s /\ package_match_at s name n)
  /\ (forall name n,
        package_match_at content name n ->
        exists rest, findall_package content = name :: rest).
Proof.
  split.
  - intros name H. apply findall_from_sound in H.
    destruct H as [pre [s [n [-> Hm]]]]. exists pre, s, n.
    split; [reflexivity | apply match_package_at_spec; exact Hm].
  - intros name n H. apply match_package_at_spec in H.
    unfold findall_package. destruct content as [|c s].
    + discriminate H.
    + simpl findall_from. rewrite H. eexists. reflexivity.
Qed.

Lemma entry_package_shape jar file_name n :
  In n (entry_packages jar file_name) -> n <> [] /\ ~ In 47%N n.
Proof.
  unfold entry_packages.
  destruct (endswith N.eqb file_name (lit ".class")).
  - destruct (dirname file_name) as [|c l]; [intros []|].
    intros [<- | []]. split; [discriminate|].
    unfold replace_char. intros H. apply in_map_iff in H.
    destruct H as [x [Hx _]]. destruct (N.eqb_spec x 47); lia.
  - destruct (endswith N.eqb file_name (lit ".java")); [|intros []].
    destruct (read jar file_name) as [raw|]; [|intros []].
    intros H. apply findall_from_sound in H.
    destruct H as [pre [s [k [_ Hm]]]]. apply match_package_at_spec in Hm.
    destruct Hm as [spaces [rest [_ [_ [_ [Hne [Hall _]]]]]]].
    split; [exact Hne|]. intros H47. rewrite forallb_forall in Hall.
    specialize (Hall _ H47). discriminate Hall.
Qed.

(** X14.  Every pair the scan of an archive gives has the path of the
    archive as its source, and a package name that is not empty and holds no
    slash. *)
Theorem package_record_shape w jar_path package_name source :
  In (package_name, source) (fst (scan_jar_file w jar_path)) ->
  source = jar_path /\ package_name <> [] /\ ~ In 47%N package_name.
Proof.
  unfold scan_jar_file. destruct (zip_at w jar_path) as [e|jar]; simpl;
    [intros []|].
  rewrite scan_entries_in. intros [[] | [f [_ [Hp Hs]]]]. simpl in *.
  split; [exact Hs|]. apply (entry_package_shape jar f). exact Hp.
Qed.

Lemma package_record_shape_witness :
  lit "lib.jar" = lit "lib.jar"
  /\ lit "com.acme" <> [] /\ ~ In 47%N (lit "com.acme").
Proof.
  apply (package_record_shape
           (Examples.world_with [] (Node [] []) (lit "lib.jar")
                                Examples.two_classes)
           (lit "lib.jar") (lit "com.acme") (lit "lib.jar")).
  left. reflexivity.
Defined.

Lemma keys_nodup_set {V} (d : dict V) k v :
  NoDup (keys d) -> NoDup (keys (set d k v)).
Proof.
  unfold keys. induction d as [|[k' v'] d IH]; simpl; intros H.
  - constructor; [intros []|constructor].
  - inversion H as [|? ? Hk Hd]; subst.
    destruct (str_eqb k' k) eqn:E; simpl.
    + constructor; assumption.
    + constructor; [|apply IH; exact Hd].
      intros Hin. apply (keys_set d k v k') in Hin.
      destruct Hin as [-> | Hin]; [|contradiction].
      rewrite str_eqb_refl in E. discriminate.
Qed.

Lemma add_package_keys_nodup (d : dict (list str)) r :
  NoDup (keys d) -> NoDup (keys (add_package d r)).
Proof.
  intros H. destruct r as [k j]. simpl.
  destruct (get d k) as [old|]; [|apply keys_nodup_set; exact H].
  destruct (list_in str_eqb j old); simpl;
    [exact H | apply keys_nodup_set; exact H].
Qed.

(** Where a pair of the aggregation comes from. *)
Lemma add_package_sound (d : dict (list str)) r k j jars :
  get (add_package d r) k = Some jars -> In j jars ->
  (exists jars0, get d k = Some jars0 /\ In j jars0) \/ r = (k, j).
Proof.
  destruct r as [k0 j0]. simpl. destruct (get d k0) as [old|] eqn:E.
  - destruct (list_in str_eqb j0 old); simpl; [eauto|].
    rewrite get_set. destruct (str_eqb k0 k) eqn:Ek; [|eauto].
    apply str_eqb_eq in Ek. subst k0. intros [= <-] Hin.
    apply in_app_or in Hin. destruct Hin as [Hin | [<- | []]]; eauto.
  - rewrite get_set. destruct (str_eqb k0 k) eqn:Ek; [|eauto].
    apply str_eqb_eq in Ek. subst k0. intros [= <-] [<- | []]. eauto.
Qed.

Lemma fold_add_package_sound rs :
  forall (d : dict (list str)) k j jars,
    get (fold_left add_package rs d) k = Some jars -> In j jars ->
    (exists jars0, get d k = Some jars0 /\ In j jars0) \/ In (k, j) rs.
Proof.
  induction rs as [|r rs IH]; intros d k j jars Hg Hj; simpl in *; [eauto|].
  destruct (IH _ _ _ _ Hg Hj) as [[jars0 [Hg0 Hj0]] | Hin]; [|tauto].
  destruct (add_package_sound d r k j jars0 Hg0 Hj0) as [H | ->]; tauto.
Qed.

Lemma fold_add_package_keys_nodup rs :
  forall d : dict (list str),
    NoDup (keys d) -> NoDup (keys (fold_left add_package rs d)).
Proof.
  induction rs as [|r rs IH]; intros d H; simpl; [exact H|].
  apply IH, add_package_keys_nodup, H.
Qed.

Lemma process_jar_list_sound w jar_files package_name jar_path jars :
  get (fst (process_jar_list w jar_files)) package_name = Some jars ->
  In jar_path jars ->
  exists p, In p jar_files
            /\ In (package_name, jar_path) (fst (scan_jar_file w p)).
Proof.
  intros Hg Hj. unfold process_jar_list in Hg. simpl in Hg.
  assert (G : forall d0 : dict (list str),
            get (fold_left
                   (fun d jar_results => fold_left add_package jar_results d)
                   (map fst (map (scan_jar_file w) jar_files)) d0)
                package_name = Some jars ->
            (exists jars0, get d0 package_name = Some jars0
                           /\ In jar_path jars0)
            \/ exists p, In p jar_files
                         /\ In (package_name, jar_path)
                               (fst (scan_jar_file w p))).
  { clear Hg. induction jar_files as [|p l IH]; intros d0 Hg; simpl in Hg.
    - left. exists jars. tauto.
    - destruct (IH _ Hg) as [[jars0 [Hg0 Hj0]] | [q [Hq Hr]]].
      + destruct (fold_add_package_sound _ _ _ _ _ Hg0 Hj0)
          as [H | Hin]; [left; exact H|].
        right. exists p. split; [left; reflexivity | exact Hin].
      + right. exists q. split; [right; exact Hq | exact Hr]. }
  destruct (G [] Hg) as [[jars0 [Hg0 _]] | H]; [discriminate | exact H].
Qed.

Lemma process_jar_list_keys_nodup w jar_files :
  NoDup (keys (fst (process_jar_list w jar_files))).
Proof.
  unfold process_jar_list. simpl.
  generalize (NoDup_nil str).
  change (@nil str) with (keys (@nil (str * list str))).
  generalize (@nil (str * list str)).
  induction (map fst (map (scan_jar_file w) jar_files)) as [|r rs IH];
    intros d0 H; simpl; [exact H|].
  apply IH, fold_add_package_keys_nodup, H.
Qed.

(** X15.  In the aggregation of a batch, an archive is listed under a
    package exactly when the scan of an archive of the batch gave that pair;
    no archive is listed twice under a package, and no package is a key
    twice. *)
Theorem package_aggregation w jar_files :
  let d := fst (process_jar_list w jar_files) in
  (forall package_name jar_path,
     (exists jars, get d package_name = Some jars /\ In jar_path jars)
     <-> exists p, In p jar_files
                   /\ In (package_name, jar_path) (fst (scan_jar_file w p)))
  /\ (forall package_name jars, get d package_name = Some jars -> NoDup jars)
  /\ NoDup (keys d).
Proof.
  intros d. split; [|split].
  - intros package_name jar_path. split.
    + intros [jars [Hg Hj]].
      apply (process_jar_list_sound w jar_files package_name jar_path jars);
        assumption.
    + intros [p [Hp Hr]].
      apply (process_jar_list_reports w jar_files p); assumption.
  - intros package_name jars. apply process_jar_list_nodup.
  - apply process_jar_list_keys_nodup.
Qed.

(** The conversion to [jar_to_packages], step by step. *)
Lemma add_jar_listed (d : dict (list str)) package_name jar_path q x :
  In x (listed (add_jar d package_name jar_path) q)
  <-> In x (listed d q) \/ (q = jar_path /\ x = package_name).
Proof.
  unfold add_jar, listed. destruct (get d jar_path) as [old|] eqn:E.
  - rewrite E, get_set. destruct (str_eqb jar_path q) eqn:Eq.
    + apply str_eqb_eq in Eq. subst q. rewrite E, in_app_iff. simpl.
      intuition.
    + apply str_eqb_neq in Eq. intuition congruence.
  - rewrite get_set, str_eqb_refl, !get_set.
    destruct (str_eqb jar_path q) eqn:Eq.
    + apply str_eqb_eq in Eq. subst q. rewrite E. simpl. intuition.
    + apply str_eqb_neq in Eq. intuition congruence.
Qed.

Lemma add_jar_keys (d : dict (list str)) package_name jar_path q :
  In q (keys (add_jar d package_name jar_path))
  <-> In q (keys d) \/ q = jar_path.
Proof.
  unfold add_jar. destruct (get d jar_path) as [old|] eqn:E.
  - rewrite E, keys_set. split; [tauto|].
    intros [H | ->]; [tauto|]. right. apply get_in_keys. eauto.
  - rewrite get_set, str_eqb_refl, !keys_set. tauto.
Qed.

(** Every key of the conversion lists a package. *)
Lemma add_jar_nonempty (d : dict (list str)) package_name jar_path :
  (forall q, In q (keys d) -> listed d q <> []) ->
  forall q, In q (keys (add_jar d package_name jar_path)) ->
            listed (add_jar d package_name jar_path) q <> [].
Proof.
  intros Hd q Hq Hnil.
  assert (Hx : forall x, ~ In x (listed (add_jar d package_name jar_path) q))
    by (rewrite Hnil; intros x []).
  apply add_jar_keys in Hq. destruct Hq as [Hq | ->].
  - specialize (Hd q Hq). destruct (listed d q) as [|x l] eqn:E;
      [congruence|].
    apply (Hx x), add_jar_listed. left. rewrite E. left. reflexivity.
  - apply (Hx package_name), add_jar_listed. right. tauto.
Qed.

Lemma invert_fold (items : dict (list str)) :
  forall acc : dict (list str),
    (forall q, In q (keys acc) -> listed acc q <> []) ->
    let d := fold_left
               (fun d '(package_name, jar_paths) =>
                  fold_left (fun d jar_path => add_jar d package_name jar_path)
                            jar_paths d)
               items acc in
    (forall q x,
       In x (listed d q)
       <-> In x (listed acc q)
           \/ exists jars, In (x, jars) items /\ In q jars)
    /\ (forall q, In q (keys d) -> listed d q <> []).
Proof.
  induction items as [|[package_name jars] items IH]; intros acc Hacc; simpl.
  - split; [|exact Hacc]. intros q x. split; [tauto|].
    intros [H | [js [[] _]]]. exact H.
  - assert (Hin : forall (js : list str) (a : dict (list str)),
              (forall q, In q (keys a) -> listed a q <> []) ->
              let a' := fold_left
                          (fun d jar_path => add_jar d package_name jar_path)
                          js a in
              (forall q x, In x (listed a' q)
                           <-> In x (listed a q)
                               \/ (x = package_name /\ In q js))
              /\ (forall q, In q (keys a') -> listed a' q <> [])).
    { induction js as [|j js IHj]; intros a Ha; simpl.
      - split; [|exact Ha]. intros q x. tauto.
      - destruct (IHj (add_jar a package_name j)
                      (add_jar_nonempty a package_name j Ha)) as [H1 H2].
        split; [|exact H2]. intros q x. rewrite H1, add_jar_listed.
        intuition (subst; auto). }
    destruct (Hin jars acc Hacc) as [H1 H2].
    destruct (IH _ H2) as [H3 H4]. split; [|exact H4].
    intros q x. rewrite H3, H1. split.
    + intros [[H | [-> Hq]] | [js [Hjs Hq]]].
      * left. exact H.
      * right. exists jars. split; [left; reflexivity | exact Hq].
      * right. exists js. split; [right; exact Hjs | exact Hq].
    + intros [H | [js [[[= -> ->] | Hjs] Hq]]].
      * left. left. exact H.
      * left. right. split; [reflexivity | exact Hq].
      * right. exists js. split; assumption.
Qed.

Lemma in_entries_get {V} (d : dict V) k v :
  NoDup (keys d) -> (In (k, v) d <-> get d k = Some v).
Proof.
  unfold keys. induction d as [|[k' v'] d IH]; simpl; intros Hnd.
  - split; [intros [] | discriminate].
  - inversion Hnd as [|? ? Hk Hd]; subst.
    destruct (str_eqb k' k) eqn:E.
    + apply str_eqb_eq in E. subst k'. split.
      * intros [[= ->] | Hin]; [reflexivity|]. exfalso. apply Hk.
        apply in_map_iff. exists (k, v). split; [reflexivity | exact Hin].
      * intros [= ->]. left. reflexivity.
    + apply str_eqb_neq in E. rewrite <- (IH Hd). split.
      * intros [[= -> _] | H]; [congruence | exact H].
      * intros H. right. exact H.
Qed.

Lemma scan_source w p package_name source :
  In (package_name, source) (fst (scan_jar_file w p)) -> source = p.
Proof.
  unfold scan_jar_file. destruct (zip_at w p) as [e|jar]; simpl; [intros []|].
  rewrite scan_entries_in. intros [[] | [f [_ [_ Hs]]]]. exact Hs.
Qed.

(** The packages the report lists under an archive. *)
Lemma jar_to_packages_listed w current_dir jar_path package_name :
  let jar_to_packages := invert (fst (process_jar_files w current_dir)) in
  In package_name (listed jar_to_packages jar_path)
  <-> In jar_path (find_jar_files w current_dir)
      /\ In (package_name, jar_path) (fst (scan_jar_file w jar_path)).
Proof.
  intros jar_to_packages. unfold jar_to_packages, invert.
  destruct (invert_fold (fst (process_jar_files w current_dir)) [])
    as [H _]; [intros q []|].
  cbv zeta in H. rewrite H. clear H. unfold process_jar_files.
  destruct (process_jar_list w (find_jar_files w current_dir)) as [d out] eqn:E.
  assert (Ed : d = fst (process_jar_list w (find_jar_files w current_dir)))
    by (rewrite E; reflexivity).
  simpl. split.
  - intros [[] | [jars [Hin Hj]]].
    apply in_entries_get in Hin;
      [|rewrite Ed; apply process_jar_list_keys_nodup].
    rewrite Ed in Hin.
    destruct (process_jar_list_sound w _ _ _ _ Hin Hj) as [p [Hp Hr]].
    pose proof (scan_source w p _ _ Hr) as Hs. subst p. tauto.
  - intros [Hp Hr]. right.
    destruct (process_jar_list_reports w _ jar_path package_name jar_path
                Hp Hr) as [jars [Hg Hj]].
    exists jars. split; [|exact Hj].
    apply in_entries_get;
      [rewrite Ed; apply process_jar_list_keys_nodup | rewrite Ed; exact Hg].
Qed.

Lemma jar_to_packages_keys w current_dir jar_path :
  let jar_to_packages := invert (fst (process_jar_files w current_dir)) in
  In jar_path (keys jar_to_packages)
  <-> exists package_name, In package_name (listed jar_to_packages jar_path).
Proof.
  intros jar_to_packages. unfold jar_to_packages, invert.
  destruct (invert_fold (fst (process_jar_files w current_dir)) [])
    as [_ H]; [intros q []|].
  cbv zeta in H. split.
  - intros Hk. specialize (H _ Hk).
    destruct (listed _ jar_path) as [|x l]; [congruence|].
    exists x. left. reflexivity.
  - intros [x Hx]. unfold listed in Hx.
    destruct (get _ jar_path) as [l|] eqn:E; [|destruct Hx].
    apply get_in_keys. exists l. exact E.
Qed.

(** X16.  The report of the package script names an archive exactly when
    it is under the directory and its scan gave a pair, and names a package
    exactly when the scan of an archive under the directory gave it; it says
    that no archive has packages exactly when no scan gave a pair. *)
Theorem package_report w current_dir :
  let out := main w current_dir in
  let found := find_jar_files w current_dir in
  (forall jar_path,
     In (Jar jar_path) out
     <-> In jar_path found /\ fst (scan_jar_file w jar_path) <> [])
  /\ (forall package_name,
        In (Package package_name) out
        <-> exists p, In p found
                      /\ In (package_name, p) (fst (scan_jar_file w p)))
  /\ (In NoJarFiles out
      <-> forall p, In p found -> fst (scan_jar_file w p) = []).
Proof.
  intros out found.
  pose proof (jar_to_packages_listed w current_dir) as HL.
  pose proof (jar_to_packages_keys w current_dir) as HK.
  cbv zeta in HL, HK. unfold out, main.
  destruct (process_jar_files w current_dir) as [d lines] eqn:E.
  simpl fst in HL, HK. fold found in HL.
  set (j2p := invert d) in *.
  assert (Hscan : forall l, ~ In l (map Scan lines)
                            \/ exists s, l = Scan s).
  { intros l. destruct l; try (left; intros H; apply in_map_iff in H;
      destruct H as [s [Hs _]]; discriminate). right. eexists. reflexivity. }
  assert (Hkey : forall jar_path,
            In jar_path (keys j2p)
            <-> In jar_path found /\ fst (scan_jar_file w jar_path) <> []).
  { intros jar_path. rewrite HK. split.
    - intros [x Hx]. apply HL in Hx. destruct Hx as [Hf Hr].
      split; [exact Hf|]. intros Hnil. rewrite Hnil in Hr. destruct Hr.
    - intros [Hf Hne].
      destruct (fst (scan_jar_file w jar_path)) as [|[n s] l] eqn:Es;
        [congruence|].
      assert (Hr : In (n, s) (fst (scan_jar_file w jar_path)))
        by (rewrite Es; left; reflexivity).
      pose proof (scan_source w _ _ _ Hr) as Hs. subst s.
      exists n. apply HL. split; [exact Hf | exact Hr]. }
  assert (Hblocks : forall l,
            In l (flat_map
                    (fun jar_path =>
                       match get j2p jar_path with
                       | Some packages => jar_block jar_path packages
                       | None => []
                       end) (sorted (keys j2p)))
            <-> l = Blank /\ j2p <> []
                \/ (exists jar_path, l = Jar jar_path /\ In jar_path (keys j2p))
                \/ exists jar_path package_name,
                     l = Package package_name
                     /\ In package_name (listed j2p jar_path)).
  { intros l. rewrite in_flat_map. split.
    - intros [jar_path [Hk Hl]]. apply (proj1 (sorted_in _ _)) in Hk.
      destruct (get j2p jar_path) as [packages|] eqn:Eg; [|destruct Hl].
      unfold jar_block in Hl. destruct Hl as [<- | Hl].
      + right. left. exists jar_path. tauto.
      + apply in_app_or in Hl. destruct Hl as [Hl | [<- | []]].
        * apply in_map_iff in Hl. destruct Hl as [x [<- Hx]].
          right. right. exists jar_path, x. split; [reflexivity|].
          unfold listed. rewrite Eg. apply (proj1 (sorted_in _ _)). exact Hx.
        * left. split; [reflexivity|]. intros Hnil. rewrite Hnil in Hk.
          destruct Hk.
    - intros [[-> Hne] | [[jar_path [-> Hk]] | [jar_path [x [-> Hx]]]]].
      + destruct j2p as [|[k v] rest] eqn:Ej; [congruence|].
        exists k. split; [apply sorted_in; left; reflexivity|].
        simpl. rewrite str_eqb_refl. unfold jar_block. right.
        apply in_or_app. right. left. reflexivity.
      + exists jar_path. split; [apply sorted_in; exact Hk|].
        apply get_in_keys in Hk. destruct Hk as [v ->]. left. reflexivity.
      + assert (Hk : In jar_path (keys j2p))
          by (apply HK; exists x; exact Hx).
        exists jar_path. split; [apply sorted_in; exact Hk|].
        unfold listed in Hx. destruct (get j2p jar_path) as [v|];
          [|destruct Hx].
        right. apply in_or_app. left. apply in_map_iff. exists x.
        split; [reflexivity | apply sorted_in; exact Hx]. }
  assert (Hout : forall l,
            (forall s, l <> Scan s) -> l <> ScanningFor current_dir ->
            l <> ResultsHeader -> l <> Rule ->
            (forall a b, l <> Summary a b) ->
            (In l (ScanningFor current_dir :: map Scan lines
                   ++ [ResultsHeader; Rule]
                   ++ match j2p with
                      | [] => [NoJarFiles]
                      | _ :: _ =>
                          flat_map
                            (fun jar_path =>
                               match get j2p jar_path with
                               | Some packages => jar_block jar_path packages
                               | None => []
                               end) (sorted (keys j2p))
                      end
                   ++ [Summary (len d) (len j2p)])
             <-> In l match j2p with
                      | [] => [NoJarFiles]
                      | _ :: _ =>
                          flat_map
                            (fun jar_path =>
                               match get j2p jar_path with
                               | Some packages => jar_block jar_path packages
                               | None => []
                               end) (sorted (keys j2p))
                      end)).
  { intros l H1 H2 H3 H4 H5. split.
    - intros [H | H]; [congruence|].
      apply in_app_or in H. destruct H as [H | H].
      { apply in_map_iff in H. destruct H as [s [Hs _]].
        exfalso. apply (H1 s). symmetry. exact Hs. }
      apply in_app_or in H. destruct H as [[H | [H | []]] | H];
        try congruence.
      apply in_app_or in H. destruct H as [H | [H | []]]; [exact H|].
      exfalso. apply (H5 _ _ (eq_sym H)).
    - intros H. right. apply in_or_app. right. apply in_or_app. right.
      apply in_or_app. left. exact H. }
  split; [|split].
  - intros jar_path. rewrite Hout by (intros; discriminate).
    rewrite <- Hkey. destruct j2p as [|kv rest] eqn:Ej.
    + simpl. split; [intros [H | []]; discriminate | intros []].
    + rewrite Hblocks. split.
      * intros [[H _] | [[q [[= ->] Hq]] | [q [x [H _]]]]];
          [discriminate | exact Hq | discriminate].
      * intros H. right. left. exists jar_path. tauto.
  - intros package_name. rewrite Hout by (intros; discriminate).
    destruct j2p as [|kv rest] eqn:Ej.
    + split.
      * intros [H | []]. discriminate.
      * intros [p [Hp Hr]]. exfalso.
        assert (Hl : In package_name (listed [] p))
          by (apply HL; split; assumption).
        destruct Hl.
    + rewrite Hblocks. split.
      * intros [[H _] | [[q [H _]] | [q [x [[= ->] Hx]]]]];
          [discriminate | discriminate |].
        exists q. apply HL in Hx. exact Hx.
      * intros [p [Hp Hr]]. right. right. exists p, package_name.
        split; [reflexivity | apply HL; split; assumption].
  - rewrite Hout by (intros; discriminate).
    destruct j2p as [|kv rest] eqn:Ej.
    + split; [|intros _; left; reflexivity]. intros _ p Hp.
      destruct (fst (scan_jar_file w p)) eqn:Es; [reflexivity|].
      exfalso. assert (Hk : In p (keys (@nil (str * list str))))
        by (apply Hkey; split; [exact Hp | congruence]).
      destruct Hk.
    + rewrite Hblocks. split.
      * intros [[H _] | [[q [H _]] | [q [x [H _]]]]]; discriminate.
      * intros Hall. exfalso.
        assert (Hk : In (fst kv) (keys (kv :: rest)))
          by (left; reflexivity).
        apply Hkey in Hk. destruct Hk as [Hf Hne]. apply Hne, Hall, Hf.
Qed.

Lemma package_files_fst w directory :
  fst (process_jar_files w directory)
  = fst (process_jar_list w (find_jar_files w directory)).
Proof. reflexivity. Qed.

Lemma add_jar_listed_eq (d : dict (list str)) package_name jar_path q :
  listed (add_jar d package_name jar_path) q
  = if str_eqb jar_path q then listed d q ++ [package_name] else listed d q.
Proof.
  unfold add_jar, listed. destruct (get d jar_path) as [old|] eqn:E.
  - rewrite E, get_set. destruct (str_eqb jar_path q) eqn:Eq; [|reflexivity].
    apply str_eqb_eq in Eq. subst q. rewrite E. reflexivity.
  - rewrite get_set, str_eqb_refl, !get_set.
    destruct (str_eqb jar_path q) eqn:Eq; [|reflexivity].
    apply str_eqb_eq in Eq. subst q. rewrite E. reflexivity.
Qed.

(** What the conversion lists under an archive: the packages whose lists
    hold the archive, in the order of the packages. *)
Lemma invert_listed (items : dict (list str)) q :
  forall acc : dict (list str),
    listed (fold_left
              (fun d '(package_name, jar_paths) =>
                 fold_left (fun d jar_path => add_jar d package_name jar_path)
                           jar_paths d)
              items acc) q
    = listed acc q
      ++ flat_map (fun kv => map (fun _ => fst kv)
                                 (filter (fun j => str_eqb j q) (snd kv)))
                  items.
Proof.
  induction items as [|[package_name jars] items IH]; intros acc; simpl.
  - rewrite app_nil_r. reflexivity.
  - rewrite IH, app_assoc. f_equal. clear IH. revert acc.
    induction jars as [|j jars IHj]; intros acc; simpl.
    + rewrite app_nil_r. reflexivity.
    + rewrite IHj, add_jar_listed_eq.
      destruct (str_eqb j q); simpl; [rewrite <- app_assoc|]; reflexivity.
Qed.

Lemma filter_nodup_single (l : list str) q :
  NoDup l ->
  filter (fun j => str_eqb j q) l = []
  \/ filter (fun j => str_eqb j q) l = [q].
Proof.
  induction 1 as [|x l Hx Hnd IH]; simpl; [left; reflexivity|].
  destruct (str_eqb x q) eqn:E; [|exact IH].
  apply str_eqb_eq in E. subst x. right. f_equal.
  apply JarTextScannerFacts.filter_none. intros y Hy. apply str_eqb_neq.
  intros ->.
  contradiction.
Qed.

(** X17.  Under an archive the report lists each package once, in
    ascending order, whatever the scan repeated. *)
Theorem packages_listed_once w current_dir jar_path :
  let packages :=
    listed (invert (fst (process_jar_files w current_dir))) jar_path in
  NoDup packages
  /\ NoDup (sorted packages)
  /\ StronglySorted leq (sorted packages).
Proof.
  intros packages.
  assert (Hnd : NoDup packages).
  { unfold packages. rewrite package_files_fst.
    pose proof (process_jar_list_keys_nodup w (find_jar_files w current_dir))
      as Hk.
    pose proof (process_jar_list_nodup w (find_jar_files w current_dir))
      as Hv.
    set (d := fst (process_jar_list w (find_jar_files w current_dir))) in *.
    clearbody d. clear packages. unfold invert. rewrite invert_listed.
    change (listed [] jar_path ++ ?x) with x.
    assert (Hv' : forall k jars, In (k, jars) d -> NoDup jars).
    { intros k jars Hin. apply (Hv k jars).
      apply in_entries_get; assumption. }
    clear Hv. unfold keys in Hk.
    induction d as [|[k jars] d IH]; simpl; [constructor|].
    inversion Hk as [|? ? Hnk Hd]; subst.
    assert (Hrest : NoDup (flat_map
                             (fun kv => map (fun _ => fst kv)
                                            (filter (fun j => str_eqb j jar_path)
                                                    (snd kv))) d)).
    { apply IH; [exact Hd|]. intros k' jars' Hin. apply (Hv' k' jars').
      right. exact Hin. }
    destruct (filter_nodup_single jars jar_path
                (Hv' k jars (or_introl eq_refl))) as [-> | ->]; simpl;
      [exact Hrest|].
    constructor; [|exact Hrest]. intros Hin. apply Hnk.
    apply in_flat_map in Hin. destruct Hin as [[k' jars'] [Hin Hm]].
    apply in_map_iff in Hm. destruct Hm as [_ [E _]]. simpl in E. subst k'.
    apply in_map_iff. exists (k, jars'). split; [reflexivity | exact Hin]. }
  split; [exact Hnd|]. split; [|apply sorted_sorted].
  apply (Permutation_NoDup (l := packages)); [|exact Hnd].
  symmetry. apply sorted_perm.
Qed.

End PackageMore.

(** ** Further properties of java_text_searcher.py *)

Module JavaMore.
Import Py Os JavaTextSearcher JavaTextDisplay JavaSpec MoreSpec.
Import PyFacts JavaTextSearcherFacts TextScanMore.




Lemma enumerate_app {A} (a b : list A) start :
  enumerate start (a ++ b)
  = enumerate start a ++ enumerate (start + Z.of_nat (length a))%Z b.
Proof.
  revert start. induction a as [|x a IH]; intros start; simpl.
  - rewrite Z.add_0_r. reflexivity.
  - rewrite IH. do 3 f_equal. lia.
Qed.

Lemma matching_lines_prefix self a b :
  exists more, matching_lines self (a ++ b) = matching_lines self a ++ more.
Proof.
  unfold matching_lines. rewrite enumerate_app, flat_map_app.
  eexists. reflexivity.
Qed.

(** X19.  When the reading as UTF-8 ends in a decoding error, the matches
    found before the error stay in the result and the reading as Latin-1
    follows from the first line: a match of a line read before the error,
    which the second reading reads again, is in the result twice. *)
Theorem decoding_fallback_repeats w self file_path lines1 lines2 e2 more m :
  lines_at w file_path Utf8 = (lines1, UnicodeDecodeError) ->
  lines_at w file_path Latin1 = (lines2, e2) ->
  lines2 = lines1 ++ more ->
  In m (matching_lines self lines1) ->
  _search_file_sync w self file_path
  = matching_lines self lines1 ++ matching_lines self lines2
  /\ exists l1 l2 l3,
       _search_file_sync w self file_path = l1 ++ m :: l2 ++ m :: l3.
Proof.
  intros H1 H2 -> Hm. unfold _search_file_sync. rewrite H1, H2.
  split; [reflexivity|].
  destruct (matching_lines_prefix self lines1 more) as [rest ->].
  apply in_split in Hm. destruct Hm as [a [b ->]].
  exists a, (b ++ a), (b ++ rest).
  repeat rewrite <- app_assoc. simpl. repeat rewrite <- app_assoc.
  reflexivity.
Qed.

Lemma decoding_fallback_repeats_witness :
  _search_file_sync JavaExamples.src_world
    (init (lit "import") (lit "/src") false) (lit "/src/Old.java")
  = [(1%Z, lit "import a;"); (1%Z, lit "import a;");
     (2%Z, lit "import caf" ++ [233%N; 59%N])].
Proof.
  destruct (decoding_fallback_repeats JavaExamples.src_world
              (init (lit "import") (lit "/src") false) (lit "/src/Old.java")
              [lit "import a;" ++ [10%N]]
              [lit "import a;" ++ [10%N];
               lit "import caf" ++ [233%N; 59%N; 10%N]]
              Eof [lit "import caf" ++ [233%N; 59%N; 10%N]]
              (1%Z, lit "import a;") eq_refl eq_refl eq_refl
              (or_introl eq_refl)) as [H _].
  rewrite H. reflexivity.
Defined.

Lemma held_matches_fold (d : dict (list (Z * str))) :
  fold_left (fun n kv => (n + len (snd kv))%Z) d 0%Z = held_matches d.
Proof.
  cut (forall acc,
         fold_left (fun n kv => (n + len (snd kv))%Z) d acc
         = (acc + held_matches d)%Z).
  { intros C. rewrite C. lia. }
  induction d as [|kv d IH]; intros acc; simpl; [lia|].
  rewrite IH. lia.
Qed.

Lemma count_displayed_app (a b : list display_line) :
  count_displayed (a ++ b) = (count_displayed a + count_displayed b)%Z.
Proof.
  unfold count_displayed, len. rewrite filter_app, length_app. lia.
Qed.

Lemma count_files_app (a b : list display_line) :
  count_files (a ++ b) = (count_files a + count_files b)%Z.
Proof.
  unfold count_files, len. rewrite filter_app, length_app. lia.
Qed.

Lemma counts_of_log (l : list line) :
  count_displayed (map Log l) = 0%Z /\ count_files (map Log l) = 0%Z.
Proof.
  unfold count_displayed, count_files, len.
  induction l as [|x l IH]; simpl; [split; reflexivity | exact IH].
Qed.

Lemma counts_of_block p (ms : list (Z * str)) :
  count_displayed (file_block p ms) = len ms
  /\ count_files (file_block p ms) = 1%Z.
Proof.
  unfold file_block, count_displayed, count_files, len. simpl.
  rewrite !filter_app. simpl. rewrite !app_nil_r.
  induction ms as [|m ms IH]; simpl; [split; reflexivity|].
  destruct IH as [H1 H2]. split; [lia | exact H2].
Qed.

(** What the display shows for the results a searcher holds. *)
Lemma display_results_counts self :
  count_displayed (display_results self) = held_matches (results self)
  /\ count_files (display_results self) = len (results self)
  /\ (In NoMatchesFound (display_results self) <-> results self = [])
  /\ forall l, ~ In (Log l) (display_results self).
Proof.
  unfold display_results. destruct (results self) as [|kv d] eqn:E.
  - repeat split; try reflexivity; try (intros _; left; reflexivity).
    intros l [H | []]. discriminate.
  - assert (H : forall items : dict (list (Z * str)),
              count_displayed
                (flat_map (fun kv => file_block (fst kv) (snd kv)) items)
              = held_matches items
              /\ count_files
                   (flat_map (fun kv => file_block (fst kv) (snd kv)) items)
                 = len items
              /\ forall l,
                   In l (flat_map (fun kv => file_block (fst kv) (snd kv))
                                  items) ->
                   l <> NoMatchesFound /\ forall x, l <> Log x).
    { induction items as [|[p ms] items IH]; cbn [flat_map fst snd].
      - repeat split; intros; try discriminate; contradiction.
      - destruct IH as [H1 [H2 H3]].
        destruct (counts_of_block p ms) as [B1 B2].
        rewrite count_displayed_app, count_files_app, B1, B2, H1, H2.
        split; [reflexivity|]. split; [unfold len; simpl length; lia|].
        intros l Hl. apply in_app_or in Hl. destruct Hl as [Hl | Hl];
          [|apply H3; exact Hl].
        unfold file_block in Hl. destruct Hl as [<- | [<- | Hl]];
          try (split; intros; discriminate).
        apply in_app_or in Hl. destruct Hl as [Hl | [<- | []]];
          [|split; intros; discriminate].
        apply in_map_iff in Hl. destruct Hl as [m [<- _]].
        split; intros; discriminate. }
    destruct (H (kv :: d)) as [H1 [H2 H3]].
    split; [exact H1|]. split; [exact H2|]. split.
    + split; [|discriminate].
      intros Hin. exfalso. apply (proj1 (H3 _ Hin)). reflexivity.
    + intros l Hin. apply (proj2 (H3 _ Hin) l). reflexivity.
Qed.

(** [search_all_files], by the files it searches. *)
Lemma search_all_files_eq w self :
  search_all_files w self
  = let s1 :=
      match java_files self with
      | [] => with_java_files self (_find_java_files_sync w self)
      | _ => self
      end in
    let out1 :=
      match java_files self with
      | [] => [SearchingForFiles (root_dir self);
               FoundFiles (len (_find_java_files_sync w self))]
      | _ => []
      end in
    match files_to_search w self with
    | [] => ([], s1, out1 ++ [NoJavaFiles])
    | files =>
        let d := fold_left add_result (map (search_file w self) files)
                           (results self) in
        (d, with_results s1 d,
         out1 ++ [SearchingIn (search_text self) (len files); SearchCompleted;
                  FoundMatches
                    (fold_left (fun n kv => (n + len (snd kv))%Z) d 0%Z)
                    (len d)])
    end.
Proof.
  unfold search_all_files, files_to_search, find_java_files.
  destruct (java_files self) as [|f files] eqn:Ej.
  - destruct (_find_java_files_sync w self) as [|f files] eqn:Ef;
      cbn [java_files with_java_files]; reflexivity.
  - cbn [java_files]. rewrite Ej. reflexivity.
Qed.

(** What a search leaves in a searcher that held no result. *)
Lemma search_all_files_state w self :
  results self = [] ->
  (forall n m,
     In (FoundMatches n m) (snd (search_all_files w self)) ->
     n = held_matches (results (snd (fst (search_all_files w self))))
     /\ m = len (results (snd (fst (search_all_files w self)))))
  /\ (results (snd (fst (search_all_files w self))) = []
      <-> forall p, In p (files_to_search w self) ->
                    _search_file_sync w self p = []).
Proof.
  intros Hr. assert (Hkeys := fun k => search_all_files_keys w self k Hr).
  rewrite search_all_files_eq in *. cbv zeta in *.
  destruct (files_to_search w self) as [|f files] eqn:Ef.
  - cbn [fst snd]. split.
    + intros n m Hin. exfalso. apply in_app_or in Hin.
      destruct Hin as [Hin | [H | []]]; [|discriminate].
      destruct (java_files self); simpl in Hin; intuition discriminate.
    + split; [intros _ p [] | intros _].
      destruct (java_files self); cbn [results with_java_files]; exact Hr.
  - cbn [fst snd results with_results] in *. rewrite Hr in *.
    set (d := fold_left add_result (map (search_file w self) (f :: files)) [])
      in *.
    split.
    + intros n m Hin. apply in_app_or in Hin.
      destruct Hin as [Hin | [H | [H | [H | []]]]]; try discriminate.
      * exfalso. destruct (java_files self); simpl in Hin;
          intuition discriminate.
      * injection H as <- <-.
        split; [apply held_matches_fold | reflexivity].
    + split.
      * intros Hd p Hp.
        destruct (_search_file_sync w self p) eqn:Es; [reflexivity|].
        exfalso. assert (Hk : In p (keys d)).
        { apply Hkeys. split; [exact Hp | congruence]. }
        rewrite Hd in Hk. destruct Hk.
      * intros Hall. destruct d as [|[k v] d'] eqn:Ed; [reflexivity|].
        exfalso. assert (Hk : In k (keys ((k, v) :: d')))
          by (left; reflexivity).
        apply Hkeys in Hk. destruct Hk as [Hk Hne].
        apply Hne, Hall, Hk.
Qed.

(** X20.  What the script displays agrees with what the search reports:
    the count of matches and of files in the line of the search are the match
    lines and the file headers displayed, and [No matches found.] is
    displayed exactly when no file under the root has a match. *)
Theorem display_agrees_with_search w st root cs :
  let self := init st root cs in
  let out := main w st root cs in
  (forall n m,
     In (Log (FoundMatches n m)) out ->
     n = count_displayed out /\ m = count_files out)
  /\ (In NoMatchesFound out
      <-> forall p, In p (_find_java_files_sync w self) ->
                    _search_file_sync w self p = []).
Proof.
  intros self out. unfold out, main, find_java_files. fold self.
  set (found := _find_java_files_sync w self).
  set (s1 := with_java_files self found).
  destruct (search_all_files_state w s1 eq_refl) as [Hfound Hempty].
  assert (Hfiles : files_to_search w s1 = found).
  { unfold files_to_search, s1. cbn [java_files with_java_files].
    destruct found eqn:E; [exact E | reflexivity]. }
  rewrite Hfiles in Hempty.
  destruct (search_all_files w s1) as [[r s2] out2]. cbn [fst snd] in *.
  destruct (display_results_counts s2) as [D1 [D2 [D3 D4]]].
  destruct (counts_of_log
              ([SearchingForFiles (root_dir self); FoundFiles (len found)]
               ++ out2)) as [L1 L2].
  split.
  - intros n m Hin. rewrite count_displayed_app, count_files_app, L1, L2, D1, D2.
    apply in_app_or in Hin. destruct Hin as [Hin | Hin];
      [|exfalso; apply (D4 _ Hin)].
    apply in_map_iff in Hin. destruct Hin as [l [[= ->] Hin]].
    apply in_app_or in Hin. destruct Hin as [[H | [H | []]] | Hin];
      try discriminate.
    destruct (Hfound n m Hin) as [-> ->]. split; lia.
  - assert (Hempty' : results s2 = []
                      <-> forall p, In p found ->
                                    _search_file_sync w self p = [])
      by exact Hempty.
    rewrite <- Hempty', <- D3. split.
    + intros Hin. apply in_app_or in Hin. destruct Hin as [Hin | Hin];
        [|exact Hin].
      apply in_map_iff in Hin. destruct Hin as [l [H _]]. discriminate.
    + intros Hin. apply in_or_app. right. exact Hin.
Qed.

End JavaMore.

(** ** Further properties of [main] in jar_text_scanner.py *)

Module MainMore.
Import Py Os JarTextScanner TextSpec MoreSpec PyFacts JarTextScannerFacts.

(** The lines of the report of the results. *)
Lemma print_results_lines args (d : dict (list MatchRecord)) l :
  In l (fst (print_results args d)) ->
  is_report_line l = true
  /\ forall p n, l = JarHeader p n ->
                 exists ms, get d p = Some ms /\ n = len ms.
Proof.
  unfold print_results. destruct d as [|kv d'].
  - cbn [fst]. intros H. apply in_app_or in H.
    destruct H as [[<- | [<- | [<- | []]]] | H];
      try (split; [reflexivity | intros; discriminate]).
    destruct (contains N.eqb [34%N] (search_text args)); [|destruct H].
    destruct H as [<- | []]. split; [reflexivity | intros; discriminate].
  - set (d := kv :: d').
    set (r := report_loop d (limit args) (total_limit args) (len d)
                          (sorted (keys d)) 0 0).
    assert (Hblocks : forall l, In l (printed r) ->
              is_report_line l = true
              /\ forall p n, l = JarHeader p n ->
                             exists ms, get d p = Some ms /\ n = len ms).
    { intros x Hx.
      destruct (report_loop_blocks d (limit args) (total_limit args) (len d)
                  (sorted (keys d)) 0 0)
        as [visited [rest [notice [_ [Hp Hn]]]]].
      fold r in Hp. rewrite Hp in Hx. apply in_app_or in Hx.
      destruct Hx as [Hx | Hx].
      - apply in_flat_map in Hx. destruct Hx as [q [_ Hx]].
        destruct (get d q) as [ms|] eqn:Eg; [|destruct Hx].
        unfold show_jar in Hx. destruct Hx as [<- | Hx].
        + split; [reflexivity|]. intros p n [= <- <-]. exists ms. tauto.
        + apply in_app_or in Hx. destruct Hx as [Hx | Hx].
          * apply in_map_iff in Hx. destruct Hx as [m [<- _]].
            split; [reflexivity | intros; discriminate].
          * apply in_app_or in Hx. destruct Hx as [Hx | [<- | []]];
              [|split; [reflexivity | intros; discriminate]].
            destruct (limit args <? len ms)%Z; [|destruct Hx].
            destruct Hx as [<- | []].
            split; [reflexivity | intros; discriminate].
      - destruct Hn as [-> | [k ->]]; [destruct Hx|].
        destruct Hx as [<- | [<- | []]];
          split; try reflexivity; intros; discriminate. }
    destruct (ended r); cbn [fst]; intros H.
    + apply in_app_or in H. destruct H as [[<- | [<- | []]] | H];
        try (split; [reflexivity | intros; discriminate]).
      apply in_app_or in H. destruct H as [H | H]; [apply Hblocks; exact H|].
      apply in_app_or in H. destruct H as [[<- | []] | H];
        [split; [reflexivity | intros; discriminate]|].
      destruct (displayed_matches r <? total_matches r)%Z; [|destruct H].
      destruct H as [<- | []]. split; [reflexivity | intros; discriminate].
    + apply in_app_or in H. destruct H as [[<- | [<- | []]] | H];
        try (split; [reflexivity | intros; discriminate]).
      apply Hblocks. exact H.
Qed.

(** A scan prints nothing but its error. *)
Lemma scan_prints_errors w jar_path st cs bm deep l :
  In l (snd (scan_jar_file_for_text w jar_path st cs bm deep)) ->
  exists e, l = ErrorProcessing jar_path e.
Proof.
  unfold scan_jar_file_for_text. destruct (zip_at w jar_path) as [e|jar].
  - intros [<- | []]. eexists. reflexivity.
  - destruct bm; [|intros []].
    destruct (encode_utf8 st); [intros []|].
    intros [<- | []]. eexists. reflexivity.
Qed.

(** X21.  A run that names an archive that is on disk scans that archive
    alone: it enumerates no directory, and a header of its report can only
    name that archive, with the number of records of its scan. *)
Theorem named_archive_alone w args name :
  jar args = Some name -> name <> [] ->
  path_exists w (requested_path args name) = true ->
  let path := requested_path args name in
  let out := fst (run w args) in
  (forall p n, In (JarHeader p n) out ->
               p = path /\ n = len (scan_of w args path))
  /\ (forall n, ~ In (FoundJarFiles n) out)
  /\ (forall d, ~ In (ScanningDirectory (search_text args) d) out)
  /\ In (ScanningJar (search_text args) path) out.
Proof.
  intros Hjar Hne Hex path out. unfold out, run, main. rewrite Hjar.
  destruct name as [|c name]; [congruence|].
  unfold path, scan_of. unfold requested_path in *. rewrite Hex. cbn [negb].
  pose proof (scan_prints_errors w
                (if negb (isabs (c :: name))
                 then path_join (directory args) (c :: name) else c :: name)
                (search_text args) (case_sensitive args) (binary args)
                (deep args)) as Herr.
  set (p0 := if negb (isabs (c :: name))
             then path_join (directory args) (c :: name) else c :: name) in *.
  destruct (scan_jar_file_for_text w p0 (search_text args)
              (case_sensitive args) (binary args) (deep args))
    as [results lines]. cbn [fst snd] in *.
  set (d := match results with [] => [] | _ :: _ => [(p0, results)] end).
  pose proof (print_results_lines args d) as Hrep.
  destruct (print_results args d) as [out' cmp]. cbn [fst] in *.
  assert (Hcase : forall l,
            In l (ScanningJar (search_text args) p0 :: lines ++ out') ->
            l = ScanningJar (search_text args) p0
            \/ (exists e, l = ErrorProcessing p0 e)
            \/ In l out').
  { intros l [<- | H]; [left; reflexivity|]. apply in_app_or in H.
    destruct H as [H | H]; [right; left; apply Herr; exact H | tauto]. }
  repeat split.
  - apply Hcase in H. destruct H as [H | [[e H] | H]]; try discriminate.
    destruct (proj2 (Hrep _ H) p n eq_refl) as [ms [Hg _]].
    unfold d in Hg. destruct results as [|m rs]; [discriminate|].
    simpl in Hg. destruct (str_eqb p0 p) eqn:E; [|discriminate].
    apply str_eqb_eq in E. symmetry. exact E.
  - apply Hcase in H. destruct H as [H | [[e H] | H]]; try discriminate.
    destruct (proj2 (Hrep _ H) p n eq_refl) as [ms [Hg ->]].
    unfold d in Hg. destruct results as [|m rs]; [discriminate|].
    simpl in Hg. destruct (str_eqb p0 p); [|discriminate].
    injection Hg as <-. reflexivity.
  - intros n H. apply Hcase in H. destruct H as [H | [[e H] | H]];
      try discriminate.
    apply Hrep in H. destruct H as [H _]. discriminate.
  - intros d0 H. apply Hcase in H. destruct H as [H | [[e H] | H]];
      try discriminate.
    apply Hrep in H. destruct H as [H _]. discriminate.
  - left. reflexivity.
Qed.

Lemma named_archive_alone_witness :
  let out :=
    fst (run Examples.lib_world
             (TextExamples.todo_args 10 1000 (Some (lit "a.JAR")))) in
  (forall p n, In (JarHeader p n) out -> p = lit "/lib/a.JAR" /\ n = 6%Z)
  /\ (forall n, ~ In (FoundJarFiles n) out)
  /\ (forall d, ~ In (ScanningDirectory (lit "TODO") d) out)
  /\ In (ScanningJar (lit "TODO") (lit "/lib/a.JAR")) out.
Proof.
  apply (named_archive_alone Examples.lib_world
           (TextExamples.todo_args 10 1000 (Some (lit "a.JAR")))
           (lit "a.JAR")).
  - reflexivity.
  - discriminate.
  - reflexivity.
Defined.

End MainMore.
